(** * intern-pal: the notifier pipeline of [notify_canada_interns.py]

    A shallow embedding of the script's functions, in the order of the
    source file, followed by the properties of its specification.

    Modelling conventions.
    - A Python [str] is a Rocq [string]: the UTF-8 bytes of the text.
      Equality, concatenation, substring tests and the ordering used by
      [sorted] are the same on code points and on their UTF-8 encoding.
      Character classes ([str.strip], [str.lower], [str.splitlines], the
      regular-expression classes [\s], [\w] and [\b]) are those Python
      gives to the ASCII range; a byte above 127 is neither white space,
      nor a word character, nor a line break, and has no case.
    - A Python [dict] is an association list without duplicate keys that
      keeps insertion order, as [dict] does; a Python [set] is a [gset].
    - [BeautifulSoup] and [html.unescape] are libraries outside the
      repository: the pipeline is parametrised by what it asks of them.
    - The notified store and the webhook are explicit state: the file
      contents are a value of [store_file], each call of the webhook is
      answered by an oracle, and every send and save is logged in a trace. *)

From Stdlib Require Import String Ascii List Arith Lia Permutation.
From stdpp Require Import base gmap sets list strings sorting.

Open Scope string_scope.
Open Scope list_scope.

Set Default Proof Using "Type".

(** ** Python string operations *)

Module Str.

Definition code (c : ascii) : nat := nat_of_ascii c.

(** [str.isspace] on the ASCII range: TAB, LF, VT, FF, CR, FS, GS, RS, US
    and the space. *)
Definition isspace (c : ascii) : bool :=
  (((9 <=? code c) && (code c <=? 13))
   || ((28 <=? code c) && (code c <=? 32)))%nat.

(** The characters [\w] matches on the ASCII range. *)
Definition isword (c : ascii) : bool :=
  (((48 <=? code c) && (code c <=? 57))
   || ((65 <=? code c) && (code c <=? 90))
   || ((97 <=? code c) && (code c <=? 122))
   || (code c =? 95))%nat.

(** The line boundaries of [str.splitlines] on the ASCII range. *)
Definition islinebreak (c : ascii) : bool :=
  (((10 <=? code c) && (code c <=? 13))
   || ((28 <=? code c) && (code c <=? 30)))%nat.

Definition lower_char (c : ascii) : ascii :=
  if ((65 <=? code c) && (code c <=? 90))%nat
  then ascii_of_nat (code c + 32) else c.

Fixpoint lower (s : string) : string :=
  match s with
  | EmptyString => EmptyString
  | String c s' => String (lower_char c) (lower s')
  end.

Fixpoint lstrip_with (p : ascii -> bool) (s : string) : string :=
  match s with
  | EmptyString => EmptyString
  | String c s' => if p c then lstrip_with p s' else s
  end.

Fixpoint rstrip_with (p : ascii -> bool) (s : string) : string :=
  match s with
  | EmptyString => EmptyString
  | String c s' =>
      match rstrip_with p s' with
      | EmptyString => if p c then EmptyString else String c EmptyString
      | r => String c r
      end
  end.

Definition strip_with (p : ascii -> bool) (s : string) : string :=
  lstrip_with p (rstrip_with p s).

(** [s.strip()], [s.rstrip()] and [s.strip("|")]. *)
Definition strip : string -> string := strip_with isspace.
Definition rstrip : string -> string := rstrip_with isspace.
Definition strip_chars (chars : string) : string -> string :=
  strip_with (fun c => existsb (Ascii.eqb c) (list_ascii_of_string chars)).

(** [s.startswith(p)]. *)
Fixpoint startswith (p s : string) : bool :=
  match p, s with
  | EmptyString, _ => true
  | String a p', String b s' => Ascii.eqb a b && startswith p' s'
  | String _ _, EmptyString => false
  end.

(** [s.endswith(p)]. *)
Fixpoint endswith (p s : string) : bool :=
  String.eqb p s ||
  match s with
  | EmptyString => false
  | String _ s' => endswith p s'
  end.

(** [needle in s]. *)
Fixpoint contains (needle s : string) : bool :=
  startswith needle s ||
  match s with
  | EmptyString => false
  | String _ s' => contains needle s'
  end.

(** [s.split(sep)] for a one-character separator: never the empty list. *)
Fixpoint split (sep : ascii) (s : string) : list string :=
  match s with
  | EmptyString => [EmptyString]
  | String c s' =>
      if Ascii.eqb c sep then EmptyString :: split sep s'
      else match split sep s' with
           | [] => [String c EmptyString]
           | cell :: cells => String c cell :: cells
           end
  end.

(** [s.splitlines()]: CR LF is one boundary, and no empty last line is
    produced after a final boundary.  [after_cr] says that the character
    before [s] was a CR that already ended a line. *)
Fixpoint splitlines_from (after_cr : bool) (s : string) : list string :=
  match s with
  | EmptyString => []
  | String c s' =>
      if after_cr && (code c =? 10)%nat then splitlines_from false s'
      else if islinebreak c then EmptyString :: splitlines_from (code c =? 13)%nat s'
      else match splitlines_from false s' with
           | [] => [String c EmptyString]
           | ln :: lns => String c ln :: lns
           end
  end.

Definition splitlines : string -> list string := splitlines_from false.

(** [sep.join(parts)]. *)
Definition join (sep : string) (parts : list string) : string :=
  String.concat sep parts.

(** Truthiness of a [str]: the empty string is falsy. *)
Definition nonempty (s : string) : bool :=
  match s with EmptyString => false | _ => true end.

End Str.

(** [sorted] compares strings code point by code point. *)
Definition str_le (a b : string) : Prop := String.leb a b = true.

#[global] Instance str_le_dec : RelDecision str_le.
Proof. intros a b. unfold str_le. apply _. Defined.

(** ** The regular expressions of the script

    Each pattern is matched by a function written for it.  A search tries
    the start positions from left to right, as [re.search] does; inside a
    pattern every greedy run is followed by a character outside its class,
    so the longest run is the only one that can succeed, and the lazy
    [.*?] is tried from the shortest extension upwards. *)

Module Re.

Import Str.

Fixpoint skip (n : nat) (s : string) : string :=
  match n, s with
  | O, _ => s
  | S n', String _ s' => skip n' s'
  | S _, EmptyString => EmptyString
  end.

(** The longest prefix of [s] made of characters satisfying [p], and what
    follows it. *)
Fixpoint span (p : ascii -> bool) (s : string) : string * string :=
  match s with
  | EmptyString => (EmptyString, EmptyString)
  | String c s' =>
      if p c then let '(run, rest) := span p s' in (String c run, rest)
      else (EmptyString, s)
  end.

Definition is_char (a : ascii) (c : ascii) : bool := Ascii.eqb a c.

(** [https?://] at the start of [s]: the scheme matched and the rest. *)
Definition scheme (s : string) : option (string * string) :=
  if startswith "https://" s then Some ("https://", skip 8 s)
  else if startswith "http://" s then Some ("http://", skip 7 s)
  else None.

(** [https?://C+] at the start of [s], where the class [C] is [cls]: the
    text matched and the rest. *)
Definition url_run (cls : ascii -> bool) (s : string) : option (string * string) :=
  match scheme s with
  | Some (sch, rest) =>
      let '(run, rest') := span cls rest in
      if nonempty run then Some (sch +:+ run, rest') else None
  | None => None
  end.

(** *** The separator pattern of [parse_markdown_table], used with [re.match]:
    [^\s*-+\s*], then any number of groups [\|\s*-+\s*], then [$]

    The pattern spans the whole string (a final line feed is white space
    for the last [\s*]), so matching is membership in its language, decided
    by the four states of its automaton. *)
Inductive sep_state : Set :=
  | SepStart   (* white space before the first dash of a group *)
  | SepDashes  (* inside a run of dashes *)
  | SepAfter   (* white space after a run of dashes *)
  .

Fixpoint separator_from (q : sep_state) (s : string) : bool :=
  match s with
  | EmptyString =>
      match q with SepStart => false | SepDashes | SepAfter => true end
  | String c s' =>
      match q with
      | SepStart =>
          if isspace c then separator_from SepStart s'
          else if is_char "-" c then separator_from SepDashes s'
          else false
      | SepDashes =>
          if is_char "-" c then separator_from SepDashes s'
          else if isspace c then separator_from SepAfter s'
          else if is_char "|" c then separator_from SepStart s'
          else false
      | SepAfter =>
          if isspace c then separator_from SepAfter s'
          else if is_char "|" c then separator_from SepStart s'
          else false
      end
  end.

Definition separator_match (s : string) : bool := separator_from SepStart s.

(** *** [\[.*?\]\((https?://[^\s)]+)\)], group 1 of [re.search] *)

Definition md_url_char (c : ascii) : bool := negb (isspace c) && negb (is_char ")" c).

(** [\]\((https?://[^\s)]+)\)] at the start of [s]. *)
Definition md_close (s : string) : option string :=
  if startswith "](" s then
    match url_run md_url_char (skip 2 s) with
    | Some (url, rest) => if startswith ")" rest then Some url else None
    | None => None
    end
  else None.

(** [.*?] followed by the rest of the pattern: the dot matches anything
    but a line feed. *)
Fixpoint md_lazy (s : string) : option string :=
  match md_close s with
  | Some url => Some url
  | None =>
      match s with
      | EmptyString => None
      | String c s' => if (code c =? 10)%nat then None else md_lazy s'
      end
  end.

Fixpoint search_markdown_link (s : string) : option string :=
  match s with
  | EmptyString => None
  | String c s' =>
      match (if is_char "[" c then md_lazy s' else None) with
      | Some url => Some url
      | None => search_markdown_link s'
      end
  end.

(** *** The attribute pattern: [href=], a single or double quote, then
    [https?://] and one or more characters that are not quotes (group 1),
    then a quote; group 1 of [re.search] *)

Definition isquote (c : ascii) : bool := is_char "034" c || is_char "'" c.

Definition href_at (s : string) : option string :=
  if startswith "href=" s then
    match skip 5 s with
    | String q s1 =>
        if isquote q then
          match url_run (fun c => negb (isquote c)) s1 with
          | Some (url, String q' _) => if isquote q' then Some url else None
          | _ => None
          end
        else None
    | EmptyString => None
    end
  else None.

Fixpoint search_href_attr (s : string) : option string :=
  match href_at s with
  | Some url => Some url
  | None =>
      match s with
      | EmptyString => None
      | String _ s' => search_href_attr s'
      end
  end.

(** *** [(https?://[^\s\)\]]+)], group 1 of [re.search] *)

Definition bare_url_char (c : ascii) : bool :=
  negb (isspace c) && negb (is_char ")" c) && negb (is_char "]" c).

Fixpoint search_bare_url (s : string) : option string :=
  match url_run bare_url_char s with
  | Some (url, _) => Some url
  | None =>
      match s with
      | EmptyString => None
      | String _ s' => search_bare_url s'
      end
  end.

(** *** [(<table[\s\S]*?</table>)] with [re.IGNORECASE], group 1 *)

(** [p] is lower case; does [s] start with it, whatever the case? *)
Fixpoint istartswith (p s : string) : bool :=
  match p, s with
  | EmptyString, _ => true
  | String a p', String b s' => Ascii.eqb a (lower_char b) && istartswith p' s'
  | String _ _, EmptyString => false
  end.

Fixpoint take (n : nat) (s : string) : string :=
  match n, s with
  | O, _ => EmptyString
  | S n', String c s' => String c (take n' s')
  | S _, EmptyString => EmptyString
  end.

(** [[\s\S]*?</table>] at the start of [s]: the text matched. *)
Fixpoint table_lazy (s : string) : option string :=
  if istartswith "</table>" s then Some (take 8 s)
  else match s with
       | EmptyString => None
       | String c s' =>
           match table_lazy s' with
           | Some body => Some (String c body)
           | None => None
           end
       end.

Definition table_at (s : string) : option string :=
  if istartswith "<table" s then
    match table_lazy (skip 6 s) with
    | Some body => Some (take 6 s +:+ body)
    | None => None
    end
  else None.

Fixpoint search_table_element (s : string) : option string :=
  match table_at s with
  | Some t => Some t
  | None =>
      match s with
      | EmptyString => None
      | String _ s' => search_table_element s'
      end
  end.

(** *** [\b0\s*d\b|\b0\s*days?\b], used with [re.search]

    [prev] is the character before the position tried, if any. *)

(** [\b] between [prev] and the start of [s]. *)
Definition boundary (prev : option ascii) (s : string) : bool :=
  let before := match prev with Some c => isword c | None => false end in
  let after := match s with String c _ => isword c | EmptyString => false end in
  xorb before after.

(** [\b] after a word character, at the start of [s]. *)
Definition boundary_after_word (s : string) : bool :=
  match s with String c _ => negb (isword c) | EmptyString => true end.

(** [d\b] or [days?\b] at the start of [s]. *)
Definition day_unit (s : string) : bool :=
  (startswith "d" s && boundary_after_word (skip 1 s))
  || (startswith "days" s && boundary_after_word (skip 4 s))
  || (startswith "day" s && boundary_after_word (skip 3 s)).

Definition zero_days_at (prev : option ascii) (s : string) : bool :=
  match s with
  | String c s' =>
      boundary prev s && is_char "0" c && day_unit (snd (span isspace s'))
  | EmptyString => false
  end.

Fixpoint search_zero_days_from (prev : option ascii) (s : string) : bool :=
  zero_days_at prev s ||
  match s with
  | EmptyString => false
  | String c s' => search_zero_days_from (Some c) s'
  end.

Definition search_zero_days : string -> bool := search_zero_days_from None.

End Re.

(** ** Python dictionaries with string keys and values *)

Module Dict.

Definition t : Type := list (string * string).

Definition keys (d : t) : list string := map fst d.

Fixpoint get (d : t) (k : string) : option string :=
  match d with
  | [] => None
  | (k', v) :: d' => if String.eqb k' k then Some v else get d' k
  end.

(** [d[k] = v]: an existing key keeps its place, a new one goes last. *)
Fixpoint set (d : t) (k v : string) : t :=
  match d with
  | [] => [(k, v)]
  | (k', v') :: d' =>
      if String.eqb k' k then (k', v) :: d' else (k', v') :: set d' k v
  end.

(** [d.get(k, default)] where [k] may be [None], which is never a key of
    a dictionary keyed by strings. *)
Definition get_default (d : t) (k : option string) (default : string) : string :=
  match k with
  | Some k' => match get d k' with Some v => v | None => default end
  | None => default
  end.

(** [{ks[i]: vs[i] for i in range(len(ks))}], for [vs] at least as long
    as [ks]. *)
Definition of_columns (ks vs : list string) : t :=
  fold_left
    (fun d i => set d (nth i ks EmptyString) (nth i vs EmptyString))
    (seq 0 (length ks)) [].

End Dict.

(** ** Locating the section and its pipe table *)

Definition line_feed : string := String "010" EmptyString.

(** [any(kw.lower() in line.lower() for kw in keywords)]. *)
Definition line_has_keyword (keywords : list string) (line : string) : bool :=
  existsb (fun kw => Str.contains (Str.lower kw) (Str.lower line)) keywords.

(** The lines from the first that satisfies [p] on. *)
Fixpoint from_first {A} (p : A -> bool) (l : list A) : list A :=
  match l with
  | [] => []
  | x :: l' => if p x then l else from_first p l'
  end.

(** The lines before the first that satisfies [p]. *)
Fixpoint until_first {A} (p : A -> bool) (l : list A) : list A :=
  match l with
  | [] => []
  | x :: l' => if p x then [] else x :: until_first p l'
  end.

Definition find_section_markdown (md : string) (section_heading_keywords : list string)
  : option string :=
  let lines := Str.splitlines md in
  match from_first (line_has_keyword section_heading_keywords) lines with
  | [] => None
  | start :: following =>
      Some (Str.join line_feed (start :: until_first (Str.startswith "#") following))
  end.

Definition is_table_line (line : string) : bool :=
  Str.startswith "|" (Str.strip line).

Definition extract_first_markdown_table (section_md : string) : option (list string) :=
  let lines := Str.splitlines section_md in
  let table_lines :=
    map Str.rstrip
        (until_first (fun ln => negb (is_table_line ln)) (from_first is_table_line lines)) in
  match table_lines with
  | [] => None
  | _ => Some table_lines
  end.

(** ** The row parsers *)

(** [ln.strip().strip("|").strip()]. *)
Definition clean_line (ln : string) : string :=
  Str.strip (Str.strip_chars "|" (Str.strip ln)).

Definition cells_of (row : string) : list string :=
  map Str.strip (Str.split "|" row).

(** [while len(cells) < n: cells.append("")]. *)
Definition pad_cells (n : nat) (cells : list string) : list string :=
  cells ++ repeat EmptyString (n - length cells).

Definition parse_markdown_table (table_lines : list string) : list Dict.t :=
  let cleaned :=
    map clean_line (filter (fun ln => Str.nonempty (Str.strip ln)) table_lines) in
  if (length cleaned <? 2)%nat then []
  else
    let header_row := nth 0 cleaned EmptyString in
    let data_rows :=
      if Re.separator_match (nth 1 cleaned EmptyString)
      then skipn 2 cleaned else skipn 1 cleaned in
    let headers := cells_of header_row in
    map (fun row => Dict.of_columns headers (pad_cells (length headers) (cells_of row)))
        data_rows.

(** What the script reads of a parsed [<table>]: for each cell its tag,
    [str(cell)] and [cell.get_text(strip=True)]; for each [<tr>] its [td]
    and [th] descendants; for the table the text of all its [th]
    descendants and its [<tr>] descendants, in document order. *)
Record html_cell : Type := {
  cell_is_th : bool;
  cell_markup : string;
  cell_text : string
}.

Record html_table : Type := {
  table_ths : list string;
  table_trs : list (list html_cell)
}.

Definition parse_html_rows (t : html_table) : option (list Dict.t) :=
  let headers_opt :=
    match table_ths t with
    | _ :: _ => Some (table_ths t)
    | [] =>
        match table_trs t with
        | [] => None
        | first_tr :: _ => Some (map cell_text first_tr)
        end
    end in
  match headers_opt with
  | None => None
  | Some headers =>
      let all_trs := table_trs t in
      let start_idx :=
        match all_trs with
        | first_tr :: _ => if existsb cell_is_th first_tr then 1 else 0
        | [] => 0
        end in
      Some (flat_map
              (fun cells =>
                 match cells with
                 | [] => []
                 | _ =>
                     let cell_raw := pad_cells (length headers) (map cell_markup cells) in
                     [Dict.of_columns headers (map Str.strip cell_raw)]
                 end)
              (skipn start_idx all_trs))
  end.

(** ** The notified store and the webhook *)

(** An element of a JSON list: a string, or a value of another type. *)
Inductive json_item : Type :=
  | JStr (s : string)
  | JOther.

(** The contents of [notified.json] as [load_notified] sees them. *)
Inductive store_file : Type :=
  | StoreAbsent                       (* [os.path.exists] is false *)
  | StoreCorrupt                      (* [json.load] raises *)
  | StoreNotList                      (* valid JSON, not a list *)
  | StoreList (data : list json_item).

(** The embed posted to the webhook; every field is [inline]. *)
Record message : Type := {
  msg_title : string;
  msg_description : string;
  msg_url : option string;
  msg_fields : list (string * string)
}.

Inductive event : Type :=
  | Sent (m : message)                (* the webhook accepted the embed *)
  | SendFailed (m : message)          (* [send_discord_webhook] raised *)
  | Saved (file : store_file).        (* [save_notified] wrote the file *)

(** Truthiness of an optional string: [None] and [""] are falsy. *)
Definition truthy (o : option string) : bool :=
  match o with
  | Some s => Str.nonempty s
  | None => false
  end.

(** [a or b]. *)
Definition py_or (a b : option string) : option string :=
  if truthy a then a else b.

(** [s or default] for a string [s]. *)
Definition or_default (s default : string) : string :=
  if Str.nonempty s then s else default.

(** [next((h for h in l if p(h)), default)]. *)
Definition next_or {A} (p : A -> bool) (l : list A) (default : option A) : option A :=
  match find p l with
  | Some x => Some x
  | None => default
  end.

(** The continuation glyph (U+21B3) and the dash (U+2014) of the embed. *)
Definition continuation_glyph : string :=
  String "226" (String "134" (String "179" EmptyString)).
Definition em_dash : string :=
  String "226" (String "128" (String "148" EmptyString)).

Definition RAW_README_KEYWORDS : list string :=
  ["Software Engineering Internship Roles"; "Software Engineering"].

(** The columns chosen from the headers of the first normalized row. *)
Record columns : Type := {
  application_header : option string;
  location_header : option string;
  company_header : string;
  role_header : string;
  age_header : option string
}.

(** The continuation context carried from row to row. *)
Record context : Type := {
  last_valid_link : option string;
  previous_company : option string
}.

(** What the loop body computes for a row that passed both filters. *)
Record posting : Type := {
  post_link : option string;
  post_key : string;
  post_company : string;
  post_message : message
}.

(** The state of the row loop. *)
Record state : Type := {
  notified : gset string;
  store : store_file;
  ctx : context;
  newly_notified : list string;
  attempts : nat;
  trace : list event
}.

(** How a run ends. *)
Inductive outcome : Type :=
  | Exit (code : nat)                 (* [sys.exit(code)] *)
  | Raised                            (* the fetch raised *)
  | Completed (st : state).

(** ** The libraries on text without markup

    Stand-ins for [html.unescape] and [BeautifulSoup] on the text of a
    pipe table whose cells hold no tag: [html.unescape] replaces the
    references [&amp;], [&lt;], [&gt;] and [&quot;] (the model agrees with
    the library on text in which every ampersand starts one of them);
    the parser decodes the same references and strips the text, and it
    finds neither an anchor nor a table. *)

Module Plain.

Definition reference (s : string) : option (ascii * nat) :=
  if Str.startswith "amp;" s then Some ("&"%char, 4)
  else if Str.startswith "lt;" s then Some ("<"%char, 3)
  else if Str.startswith "gt;" s then Some (">"%char, 3)
  else if Str.startswith "quot;" s then Some ("034"%char, 5)
  else None.

(** [pending] characters of a reference already replaced are dropped. *)
Fixpoint unescape_from (pending : nat) (s : string) : string :=
  match s with
  | EmptyString => EmptyString
  | String c s' =>
      match pending with
      | S n => unescape_from n s'
      | O =>
          if Ascii.eqb c "&" then
            match reference s' with
            | Some (c', len) => String c' (unescape_from len s')
            | None => String c (unescape_from 0 s')
            end
          else String c (unescape_from 0 s')
      end
  end.

Definition unescape : string -> string := unescape_from 0.

Definition get_text (text : string) : string := Str.strip (unescape text).

Definition anchor_hrefs (cell : string) : option (list string) := Some [].

Definition find_table (fragment : string) : option html_table := None.

(** A webhook that accepts every embed, and one that refuses every embed. *)
Definition accept_all (n : nat) (m : message) : bool := true.
Definition refuse_all (n : nat) (m : message) : bool := false.

(** A document: a heading line, then the lines of a pipe table. *)
Definition document (table_lines : list string) : string :=
  Str.join line_feed ("## Software Engineering Internship Roles" :: table_lines).

End Plain.

(** ** The libraries on cells made of anchors

    A stand-in for the anchors [BeautifulSoup] finds in a cell written as
    a sequence of [<a href=...>text</a>] elements, each target between
    double quotes and free of character references. *)

Module Markup.

Definition quote : string := String "034" EmptyString.

Definition anchor (target text : string) : string :=
  "<a href=" +:+ quote +:+ target +:+ quote +:+ ">" +:+ text +:+ "</a>".

Inductive scan : Set :=
  | Outside            (* between anchors *)
  | Opening (n : nat)  (* [n] characters of the opening of an anchor left *)
  | Target.            (* inside the quoted target *)

(** The targets from [s] on; in [Target] mode the first element of the
    result is the rest of the target being read. *)
Fixpoint hrefs_from (mode : scan) (s : string) : list string :=
  match s with
  | EmptyString => match mode with Target => [EmptyString] | _ => [] end
  | String c s' =>
      match mode with
      | Outside =>
          if Str.startswith ("<a href=" +:+ quote) s
          then hrefs_from (Opening 8) s' else hrefs_from Outside s'
      | Opening (S (S n)) => hrefs_from (Opening (S n)) s'
      | Opening _ => hrefs_from Target s'
      | Target =>
          if Ascii.eqb c "034" then EmptyString :: hrefs_from Outside s'
          else match hrefs_from Target s' with
               | [] => [String c EmptyString]
               | href :: hrefs => String c href :: hrefs
               end
      end
  end.

Definition anchor_hrefs (cell : string) : option (list string) :=
  Some (hrefs_from Outside cell).

End Markup.

(** ** The pipeline, over the libraries it calls *)

Section Pipeline.

(** [html.unescape]. *)
Variable html_unescape : string -> string.
(** [BeautifulSoup(text, "lxml").get_text(strip=True)]. *)
Variable soup_get_text : string -> string.
(** The [href] values of [BeautifulSoup(cell, "lxml").find_all("a", href=True)],
    in document order; [None] when the library raises. *)
Variable soup_anchor_hrefs : string -> option (list string).
(** [BeautifulSoup(fragment, "lxml").find("table")]. *)
Variable soup_find_table : string -> option html_table.

Definition parse_html_table (html_fragment : string) : option (list Dict.t) :=
  match soup_find_table html_fragment with
  | None => None
  | Some table => parse_html_rows table
  end.

Definition strip_html_tags (text : string) : string := soup_get_text text.

Definition normalize_url (url : string) : string := Str.strip (html_unescape url).

(** *** extract_link_from_cell *)

Definition is_absolute (href : string) : bool :=
  Str.startswith "http://" (Str.lower href) || Str.startswith "https://" (Str.lower href).

Definition is_aggregator (href : string) : bool :=
  Str.contains "simplify.jobs/p/" (Str.lower href).

Definition direct_href (href : string) : bool :=
  Str.nonempty href && is_absolute href && negb (is_aggregator href).

Definition absolute_href (href : string) : bool :=
  Str.nonempty href && is_absolute href.

(** The body of the [try] block: the two loops over the anchors. *)
Definition link_from_anchors (cell : string) : option string :=
  match soup_anchor_hrefs cell with
  | Some (a :: anchors) =>
      let hrefs := map Str.strip (a :: anchors) in
      match find direct_href hrefs with
      | Some href => Some (normalize_url href)
      | None =>
          match find absolute_href hrefs with
          | Some href => Some (normalize_url href)
          | None => None
          end
      end
  | Some [] => None
  | None => None
  end.

Definition extract_link_from_cell (cell_text_or_html : string) : option string :=
  if negb (Str.nonempty cell_text_or_html) then None
  else
    match link_from_anchors cell_text_or_html with
    | Some link => Some link
    | None =>
        match Re.search_markdown_link cell_text_or_html with
        | Some url => Some (normalize_url url)
        | None =>
            match Re.search_href_attr cell_text_or_html with
            | Some url => Some (normalize_url (html_unescape url))
            | None =>
                match Re.search_bare_url cell_text_or_html with
                | Some url => Some (normalize_url url)
                | None => None
                end
            end
        end
    end.

Definition location_is_canada (location_text : string) : bool :=
  if negb (Str.nonempty location_text) then false
  else Str.contains "canada" (Str.lower (strip_html_tags location_text)).

(** *** load_notified and save_notified *)

Definition json_strings (data : list json_item) : list string :=
  omap (fun x => match x with JStr s => Some s | JOther => None end) data.

Definition load_notified (file : store_file) : gset string :=
  match file with
  | StoreList data => list_to_set (map normalize_url (json_strings data))
  | StoreAbsent | StoreCorrupt | StoreNotList => ∅
  end.

(** The list written by [json.dump]. *)
Definition saved_list (members : list string) : list string :=
  merge_sort str_le (map normalize_url members).

Definition save_notified (notified : gset string) : store_file :=
  StoreList (map JStr (saved_list (elements notified))).

(** *** build_normalized_rows *)

Definition looks_like_markup (v : string) : bool :=
  Str.contains "<" v && Str.contains ">" v && Str.contains "href" v.

Definition raw_key (k : string) : string := k +:+ "_raw".

Definition normalize_column (row : Dict.t) (kv : string * string) : Dict.t :=
  let '(k, v) := kv in
  if looks_like_markup v
  then Dict.set (Dict.set row (raw_key k) v) k (strip_html_tags v)
  else Dict.set (Dict.set row k (strip_html_tags v)) (raw_key k) v.

Definition normalize_row (r : Dict.t) : Dict.t := fold_left normalize_column r [].

Definition build_normalized_rows (raw_rows : list Dict.t) : list Dict.t :=
  map normalize_row raw_rows.

(** *** main: the choice of columns *)

Definition header_has (words : list string) (h : string) : bool :=
  existsb (fun w => Str.contains w (Str.lower h)) words.

Definition human_headers_of (headers : list string) : list string :=
  filter (fun h => negb (Str.endswith "_raw" h)) headers.

Definition choose_columns (headers : list string) : columns :=
  let human_headers := human_headers_of headers in
  {| application_header := next_or (header_has ["apply"; "application"]) human_headers None;
     location_header := next_or (header_has ["location"]) human_headers None;
     company_header :=
       default "Company"
         (next_or (header_has ["company"]) human_headers (head human_headers));
     role_header :=
       default "Role"
         (next_or (header_has ["role"; "position"]) human_headers (human_headers !! 1%nat));
     age_header := next_or (header_has ["age"]) human_headers None |}.

(** *** main: the body of the row loop *)

Section Rows.

Variable cols : columns.

Definition location_of (item : Dict.t) : string :=
  Dict.get_default item (location_header cols) "".

Definition age_of (item : Dict.t) : string :=
  Dict.get_default item (age_header cols) "".

(** [age and re.search(..., age.lower())]. *)
Definition age_is_zero_days (age : string) : bool :=
  Str.nonempty age && Re.search_zero_days (Str.lower age).

Definition qualifies (item : Dict.t) : bool :=
  location_is_canada (location_of item) && age_is_zero_days (age_of item).

Definition current_link_of (item : Dict.t) : option string :=
  let app_raw_key :=
    if truthy (application_header cols)
    then option_map raw_key (application_header cols) else None in
  let app_raw_val :=
    if truthy app_raw_key
    then Dict.get_default item (py_or app_raw_key (Some "")) "" else "" in
  py_or (extract_link_from_cell app_raw_val)
        (extract_link_from_cell
           (Dict.get_default item (py_or (application_header cols) (Some "")) "")).

Definition company_text_stripped_of (item : Dict.t) : string :=
  let company_text_raw := Dict.get_default item (Some (company_header cols)) "" in
  if Str.nonempty company_text_raw
  then Str.strip (strip_html_tags company_text_raw) else "".

(** A row that names a company of its own. *)
Definition is_main_row (company_text_stripped : string) : bool :=
  Str.nonempty company_text_stripped
  && negb (String.eqb company_text_stripped continuation_glyph).

Definition update_context (c : context) (item : Dict.t) : context :=
  let company := company_text_stripped_of item in
  let current_link := current_link_of item in
  {| previous_company :=
       if is_main_row company then Some company else previous_company c;
     last_valid_link :=
       if is_main_row company && truthy current_link
       then current_link else last_valid_link c |}.

(** [previous_company if company == glyph and previous_company else company]. *)
Definition effective_company (c : context) (company : string) : string :=
  if String.eqb company continuation_glyph && truthy (previous_company c)
  then default "" (previous_company c) else company.

(** The link, key and embed of a qualifying row, in the context already
    updated by that row. *)
Definition resolve (c : context) (item : Dict.t) : posting :=
  let company := company_text_stripped_of item in
  let location := location_of item in
  let link := py_or (current_link_of item) (last_valid_link c) in
  let key :=
    if truthy link then normalize_url (default "" link)
    else
      let comp_for_key := effective_company c company in
      let role_text :=
        Str.strip (or_default (Dict.get_default item (Some (role_header cols)) "") "") in
      let loc_text := Str.strip (strip_html_tags location) in
      normalize_url (comp_for_key +:+ "|" +:+ role_text +:+ "|" +:+ loc_text) in
  let company_display := effective_company c company in
  let role_display := strip_html_tags (Dict.get_default item (Some (role_header cols)) "") in
  let loc_display := strip_html_tags location in
  let age_display := or_default (age_of item) "" in
  {| post_link := link;
     post_key := key;
     post_company := company_display;
     post_message :=
       {| msg_title :=
            "New Canada Software Engineering Intern " +:+ em_dash +:+ " "
            +:+ or_default company_display "Unknown";
          msg_description :=
            if truthy link
            then "[Click to apply](" +:+ default "" link +:+ ")"
            else "Application link not found.";
          msg_url := if truthy link then link else None;
          msg_fields :=
            [("Company", or_default company_display em_dash);
             ("Role", or_default role_display em_dash);
             ("Location", or_default loc_display em_dash);
             ("Age", or_default age_display em_dash)] |} |}.

(** The answer of the webhook to the [n]-th call of the run. *)
Variable webhook : nat -> message -> bool.

(** The [try] block, for a posting whose key is not notified yet. *)
Definition dispatch (st : state) (c : context) (p : posting) : state :=
  if webhook (attempts st) (post_message p) then
    let notified' := {[post_key p]} ∪ notified st in
    {| notified := notified';
       store := save_notified notified';
       ctx := c;
       newly_notified := newly_notified st ++ [post_key p];
       attempts := S (attempts st);
       trace := trace st ++ [Sent (post_message p); Saved (save_notified notified')] |}
  else
    {| notified := notified st;
       store := store st;
       ctx := c;
       newly_notified := newly_notified st;
       attempts := S (attempts st);
       trace := trace st ++ [SendFailed (post_message p)] |}.

Definition with_context (st : state) (c : context) : state :=
  {| notified := notified st; store := store st; ctx := c;
     newly_notified := newly_notified st; attempts := attempts st;
     trace := trace st |}.

(** One iteration of [for item in normalized_rows]. *)
Definition process_row (st : state) (item : Dict.t) : state :=
  if negb (location_is_canada (location_of item)) then st
  else if negb (age_is_zero_days (age_of item)) then st
  else
    let c := update_context (ctx st) item in
    let p := resolve c item in
    if bool_decide (post_key p ∈ notified st) then with_context st c
    else dispatch st c p.

Definition process_rows (st : state) (normalized_rows : list Dict.t) : state :=
  fold_left process_row normalized_rows st.

End Rows.

Definition initial_state (file : store_file) : state :=
  {| notified := load_notified file;
     store := file;
     ctx := {| last_valid_link := None; previous_company := None |};
     newly_notified := [];
     attempts := 0;
     trace := [] |}.

(** *** main: from the document to the rows *)

Definition extract_rows (md section : string) : list Dict.t :=
  match extract_first_markdown_table section with
  | Some table_lines => parse_markdown_table table_lines
  | None =>
      match parse_html_table section with
      | Some (r :: html_rows) => r :: html_rows
      | _ =>
          match Re.search_table_element md with
          | Some fragment =>
              match parse_html_table fragment with
              | Some (r :: parsed_any) => r :: parsed_any
              | _ => []
              end
          | None => []
          end
      end
  end.

(** The loop of [main] over the raw rows found, from the store [file]. *)
Definition notify_rows (webhook : nat -> message -> bool) (file : store_file)
    (rows : list Dict.t) : state :=
  let normalized_rows := build_normalized_rows rows in
  let headers := Dict.keys (nth 0 normalized_rows []) in
  process_rows (choose_columns headers) webhook (initial_state file) normalized_rows.

(** [main]: [webhook_url] is the environment variable, [fetched] the text
    returned by [fetch_readme_raw], or [None] when it raises. *)
Definition main (webhook_url : option string) (fetched : option string)
    (file : store_file) (webhook : nat -> message -> bool) : outcome :=
  if negb (truthy webhook_url) then Exit 2
  else
    match fetched with
    | None => Raised
    | Some md =>
        if negb (truthy (find_section_markdown md RAW_README_KEYWORDS)) then Exit 1
        else
          let section := default "" (find_section_markdown md RAW_README_KEYWORDS) in
          match extract_rows md section with
          | [] => Exit 0
          | r :: rows => Completed (notify_rows webhook file (r :: rows))
          end
    end.

(** The embeds accepted by the webhook during a run. *)
Definition sent_of (tr : list event) : list message :=
  omap (fun e => match e with Sent m => Some m | _ => None end) tr.

(** The files written during a run. *)
Definition saves_of (tr : list event) : list store_file :=
  omap (fun e => match e with Saved f => Some f | _ => None end) tr.

Definition dispatched (o : outcome) : list message :=
  match o with
  | Completed st => sent_of (trace st)
  | Exit _ | Raised => []
  end.

(** *** The specification's reading of two components

    The link policy as an ordered list of strategies, each returning an
    optional link, and the recency rule as the presence of an occurrence
    of the accepted forms. *)








Fixpoint last_char (prev : option ascii) (s : string) : option ascii :=
  match s with
  | EmptyString => prev
  | String c s' => last_char (Some c) s'
  end.





(** The events a run may log: for each posting dispatched, either the
    embed accepted, followed at once by the file written, or the failure. *)
Inductive dispatch_log : list event -> Prop :=
  | log_nil : dispatch_log []
  | log_sent m f evs : dispatch_log evs -> dispatch_log (evs ++ [Sent m; Saved f])
  | log_failed m evs : dispatch_log evs -> dispatch_log (evs ++ [SendFailed m]).

(** The embeds refused during a run. *)
Definition failures_of (tr : list event) : list message :=
  omap (fun e => match e with SendFailed m => Some m | _ => None end) tr.

(** The keys of the rows that pass both filters, in order, from the
    context [c]: they depend on the rows alone, not on the notified set
    nor on the webhook. *)
Fixpoint run_keys (cols : columns) (c : context) (normalized_rows : list Dict.t)
  : list string :=
  match normalized_rows with
  | [] => []
  | item :: rest =>
      if qualifies cols item then
        let c' := update_context cols c item in
        post_key (resolve cols c' item) :: run_keys cols c' rest
      else run_keys cols c rest
  end.

(** A key that normalization leaves as it is, however often it is applied. *)
Definition stable_key (k : string) : Prop := normalize_url (normalize_url k) = k.

(** The first [n] columns paired in order: what the comprehension of the
    row parsers builds when the keys are pairwise distinct. *)
Definition column_pairs (ks vs : list string) (n : nat) : Dict.t :=
  map (fun i => (nth i ks EmptyString, nth i vs EmptyString)) (seq 0 n).

(** The row built from the cells of one [<tr>], and whether a [<tr>] has
    cells at all. *)
Definition html_row (headers : list string) (cells : list html_cell) : Dict.t :=
  Dict.of_columns headers
    (map Str.strip (pad_cells (length headers) (map cell_markup cells))).

Definition has_cells (cells : list html_cell) : bool :=
  match cells with [] => false | _ :: _ => true end.

(** The bookkeeping of a run that loaded the set [loaded]: the keys sent
    are pairwise distinct and were not loaded, the notified set is the
    loaded set with the keys sent, every accepted embed was followed by
    one write of the store, and every call of the webhook was either
    accepted or refused. *)
Definition run_bookkeeping (loaded : gset string) (st : state) : Prop :=
  NoDup (newly_notified st)
  /\ notified st = loaded ∪ list_to_set (newly_notified st)
  /\ (forall k, k ∈ newly_notified st -> k ∉ loaded)
  /\ length (sent_of (trace st)) = length (newly_notified st)
  /\ length (saves_of (trace st)) = length (newly_notified st)
  /\ attempts st
     = (length (sent_of (trace st)) + length (failures_of (trace st)))%nat.

(** The store during a run that started from [file]: untouched as long as
    nothing was sent, and afterwards the notified set as last written. *)
Definition store_follows_sends (file : store_file) (st : state) : Prop :=
  (sent_of (trace st) = [] /\ store st = file /\ notified st = load_notified file
   /\ saves_of (trace st) = [])
  \/ (sent_of (trace st) <> [] /\ store st = save_notified (notified st)
      /\ last (saves_of (trace st)) = Some (store st)).

(** The postings of the rows that pass both filters, in order, from the
    context [c]. *)
Fixpoint run_postings (cols : columns) (c : context) (normalized_rows : list Dict.t)
  : list posting :=
  match normalized_rows with
  | [] => []
  | item :: rest =>
      if qualifies cols item then
        let c' := update_context cols c item in
        resolve cols c' item :: run_postings cols c' rest
      else run_postings cols c rest
  end.

(** ** Properties *)

(** *** Dictionaries *)

Lemma dict_keys_set_old (d : Dict.t) k v :
  k ∈ Dict.keys d -> Dict.keys (Dict.set d k v) = Dict.keys d.
Proof.
  induction d as [|[k' v'] d IH]; simpl; intros Hin.
  - by apply elem_of_nil in Hin.
  - destruct (String.eqb_spec k' k) as [->|Hne]; simpl; [done|].
    f_equal. apply IH. apply elem_of_cons in Hin as [Heq|Hin]; [congruence|done].
Qed.

Lemma dict_set_new (d : Dict.t) k v :
  k ∉ Dict.keys d -> Dict.set d k v = d ++ [(k, v)].
Proof.
  induction d as [|[k' v'] d IH]; simpl; intros Hnin; [done|].
  destruct (String.eqb_spec k' k) as [->|Hne].
  - exfalso. apply Hnin. by left.
  - f_equal. apply IH. intros Hin. apply Hnin. by right.
Qed.

Lemma dict_keys_set_new (d : Dict.t) k v :
  k ∉ Dict.keys d -> Dict.keys (Dict.set d k v) = Dict.keys d ++ [k].
Proof.
  intros Hnin. rewrite dict_set_new by done. unfold Dict.keys. by rewrite map_app.
Qed.

Lemma dict_elem_of_keys_set (d : Dict.t) k v k0 :
  k0 ∈ Dict.keys (Dict.set d k v) <-> k0 ∈ Dict.keys d \/ k0 = k.
Proof.
  destruct (decide (k ∈ Dict.keys d)) as [Hin|Hnin].
  - rewrite dict_keys_set_old by done. split; [by left|]. by intros [?| ->].
  - rewrite dict_keys_set_new by done. rewrite elem_of_app, list_elem_of_singleton. done.
Qed.

Lemma dict_get_app_new (d : Dict.t) k v :
  k ∉ Dict.keys d -> Dict.get (d ++ [(k, v)]) k = Some v.
Proof.
  induction d as [|[k' v'] d IH]; simpl; intros Hnin.
  - by rewrite String.eqb_refl.
  - destruct (String.eqb_spec k' k) as [->|Hne].
    + exfalso. apply Hnin. by left.
    + apply IH. intros Hin. apply Hnin. by right.
Qed.

Lemma dict_get_app_other (d : Dict.t) k v k0 :
  k0 <> k -> Dict.get (d ++ [(k, v)]) k0 = Dict.get d k0.
Proof.
  intros Hne. induction d as [|[k' v'] d IH]; simpl.
  - destruct (String.eqb_spec k k0); congruence.
  - by rewrite IH.
Qed.

Lemma column_pairs_keys ks vs n :
  (n <= length ks)%nat -> Dict.keys (column_pairs ks vs n) = firstn n ks.
Proof.
  unfold Dict.keys, column_pairs. rewrite map_map. simpl.
  induction n as [|n IH]; intros Hn; [done|].
  rewrite seq_S, map_app, IH by lia. simpl.
  destruct (lookup_lt_is_Some_2 ks n) as [k Hk]; [lia|].
  rewrite (take_S_r _ _ _ Hk). f_equal.
  by rewrite (nth_lookup_Some _ _ _ _ Hk).
Qed.

Lemma of_columns_pairs ks vs :
  NoDup ks -> Dict.of_columns ks vs = column_pairs ks vs (length ks).
Proof.
  intros Hnd. unfold Dict.of_columns.
  assert (Hgen : forall n a, (a + n <= length ks)%nat ->
    fold_left (fun d i => Dict.set d (nth i ks EmptyString) (nth i vs EmptyString))
      (seq a n) (column_pairs ks vs a) = column_pairs ks vs (a + n)).
  { induction n as [|n IH]; intros a Ha; simpl.
    - by rewrite Nat.add_0_r.
    - rewrite dict_set_new.
      + replace (a + S n)%nat with (S a + n)%nat by lia.
        rewrite <- IH by lia. f_equal.
        unfold column_pairs. by rewrite seq_S, map_app.
      + rewrite column_pairs_keys by lia.
        destruct (lookup_lt_is_Some_2 ks a) as [k Hk]; [lia|].
        rewrite (nth_lookup_Some _ _ _ _ Hk).
        intros Hin. apply list_elem_of_lookup in Hin as [j Hj].
        pose proof (lookup_lt_Some _ _ _ Hj) as Hlt.
        rewrite length_take in Hlt.
        rewrite lookup_take_lt in Hj by lia.
        pose proof (NoDup_lookup _ _ _ _ Hnd Hj Hk). lia. }
  apply (Hgen (length ks) 0%nat). lia.
Qed.


Lemma of_columns_get ks vs i h :
  NoDup ks -> ks !! i = Some h ->
  Dict.get (Dict.of_columns ks vs) h = Some (nth i vs EmptyString).
Proof.
  intros Hnd Hi. rewrite of_columns_pairs by done.
  pose proof (lookup_lt_Some _ _ _ Hi) as Hlt.
  assert (Hgen : forall n, (i < n <= length ks)%nat ->
    Dict.get (column_pairs ks vs n) h = Some (nth i vs EmptyString)).
  { induction n as [|n IH]; intros Hn; [lia|].
    unfold column_pairs. rewrite seq_S, map_app. simpl.
    fold (column_pairs ks vs n).
    destruct (decide (i = n)) as [->|Hne].
    - rewrite (nth_lookup_Some _ _ _ _ Hi). apply dict_get_app_new.
      rewrite column_pairs_keys by lia.
      intros Hin. apply list_elem_of_lookup in Hin as [j Hj].
      pose proof (lookup_lt_Some _ _ _ Hj) as Hj'. rewrite length_take in Hj'.
      rewrite lookup_take_lt in Hj by lia.
      pose proof (NoDup_lookup _ _ _ _ Hnd Hj Hi). lia.
    - rewrite dict_get_app_other; [apply IH; lia|].
      destruct (lookup_lt_is_Some_2 ks n) as [k Hk]; [lia|].
      rewrite (nth_lookup_Some _ _ _ _ Hk). intros ->.
      pose proof (NoDup_lookup _ _ _ _ Hnd Hi Hk). lia. }
  apply Hgen. lia.
Qed.

Lemma nth_pad_cells n cells i :
  nth i (pad_cells n cells) EmptyString = nth i cells EmptyString.
Proof.
  unfold pad_cells.
  destruct (decide (i < length cells)%nat) as [Hlt|Hge].
  - by rewrite app_nth1.
  - rewrite app_nth2 by lia. rewrite (nth_overflow cells) by lia.
    by rewrite nth_repeat.
Qed.

(** *** Pipe-table parsing *)



(** *** Row normalization *)

Lemma string_length_app (a b : string) :
  String.length (a +:+ b) = (String.length a + String.length b)%nat.
Proof. induction a as [|c a IH]; simpl; [done|]. by rewrite IH. Qed.

Lemma raw_key_inj k1 k2 : raw_key k1 = raw_key k2 -> k1 = k2.
Proof.
  unfold raw_key. intros Heq.
  assert (Hlen : String.length k1 = String.length k2).
  { apply (f_equal String.length) in Heq. rewrite !string_length_app in Heq. lia. }
  revert k2 Heq Hlen. induction k1 as [|c k1 IH]; intros [|c2 k2]; simpl; try done.
  intros Heq Hlen. injection Heq as -> Heq. f_equal. apply IH; [done|lia].
Qed.

Lemma raw_key_neq k : raw_key k <> k.
Proof.
  unfold raw_key. intros Heq. apply (f_equal String.length) in Heq.
  rewrite string_length_app in Heq. simpl in Heq. lia.
Qed.

Lemma normalize_column_keys row k v k0 :
  k0 ∈ Dict.keys (normalize_column row (k, v))
  <-> k0 ∈ Dict.keys row \/ k0 = k \/ k0 = raw_key k.
Proof.
  unfold normalize_column. destruct (looks_like_markup v);
    rewrite !dict_elem_of_keys_set; (split; [intros [[?|?]|?]|intros [?|[?|?]]]); auto.
Qed.

Lemma normalize_column_fresh row k v :
  k ∉ Dict.keys row -> raw_key k ∉ Dict.keys row ->
  length (Dict.keys (normalize_column row (k, v))) = S (S (length (Dict.keys row))).
Proof.
  intros Hk Hraw. pose proof (raw_key_neq k) as Hne.
  unfold normalize_column. destruct (looks_like_markup v).
  - rewrite (dict_keys_set_new (Dict.set row (raw_key k) v)).
    + rewrite dict_keys_set_new by done. rewrite !length_app. simpl. lia.
    + rewrite dict_elem_of_keys_set. intros [?|?]; [done|]. by apply Hne.
  - rewrite (dict_keys_set_new (Dict.set row k (strip_html_tags v))).
    + rewrite dict_keys_set_new by done. rewrite !length_app. simpl. lia.
    + rewrite dict_elem_of_keys_set. intros [?|?]; [done|]. by apply Hne.
Qed.

Lemma fold_normalize_column_keys r acc k0 :
  k0 ∈ Dict.keys (fold_left normalize_column r acc)
  <-> k0 ∈ Dict.keys acc \/ k0 ∈ Dict.keys r
      \/ exists k, k ∈ Dict.keys r /\ k0 = raw_key k.
Proof.
  revert acc. induction r as [|[k v] r IH]; intros acc; cbn [fold_left].
  - split; [by left|]. intros [?|[Hin|(k & Hin & _)]]; [done| |];
      by apply elem_of_nil in Hin.
  - change (Dict.keys ((k, v) :: r)) with (k :: Dict.keys r).
    rewrite IH, normalize_column_keys. split.
    + intros [[?|[->| ->]]|[?|(k' & ? & ->)]].
      * by left.
      * right; left. by left.
      * right; right. exists k. split; [by left|done].
      * right; left. by right.
      * right; right. exists k'. split; [by right|done].
    + intros [?|[Hin|(k' & Hin & ->)]].
      * left. by left.
      * apply elem_of_cons in Hin as [->|?]; [left; right; by left|right; by left].
      * apply elem_of_cons in Hin as [->|?].
        -- left. right. by right.
        -- right. right. by exists k'.
Qed.

(** The keys of a normalized row, as a set. *)
Lemma normalize_row_keys r k0 :
  k0 ∈ Dict.keys (normalize_row r)
  <-> k0 ∈ Dict.keys r \/ exists k, k ∈ Dict.keys r /\ k0 = raw_key k.
Proof.
  unfold normalize_row. rewrite fold_normalize_column_keys. split.
  - intros [Hin|?]; [by apply elem_of_nil in Hin|done].
  - by right.
Qed.

Lemma fold_normalize_column_length r acc :
  NoDup (Dict.keys r) ->
  (forall k, k ∈ Dict.keys r -> (k ∉ Dict.keys acc) /\ (raw_key k ∉ Dict.keys acc)) ->
  (forall k k', k ∈ Dict.keys r -> k' ∈ Dict.keys r -> k' <> raw_key k) ->
  length (Dict.keys (fold_left normalize_column r acc))
  = (length (Dict.keys acc) + 2 * length (Dict.keys r))%nat.
Proof.
  revert acc. induction r as [|[k v] r IH]; intros acc Hnd Hacc Hraw; cbn [fold_left].
  - simpl. lia.
  - change (Dict.keys ((k, v) :: r)) with (k :: Dict.keys r) in *.
    apply NoDup_cons in Hnd as [Hk Hnd].
    destruct (Hacc k) as [Hk1 Hk2]; [by left|].
    rewrite IH.
    + rewrite normalize_column_fresh by done. simpl. lia.
    + done.
    + intros k' Hk'. destruct (Hacc k') as [Hk'1 Hk'2]; [by right|].
      rewrite !normalize_column_keys. split.
      * intros [?|[->| ->]]; [done|done|].
        apply (Hraw k (raw_key k)); [by left|by right|done].
      * intros [?|[Heq|Heq]]; [done| |].
        -- apply (Hraw k' k); [by right|by left|done].
        -- apply raw_key_inj in Heq. by subst.
    + intros k1 k2 H1 H2. apply Hraw; by right.
Qed.

(** C7, as amended.  The keys of a normalized row are the keys of the raw
    row together with each of them followed by [_raw]; and when the raw
    row (a dictionary: its keys are pairwise distinct) has no key that is
    another of its keys followed by [_raw], the normalized row has exactly
    twice as many keys. *)
Theorem normalized_row_key_shape (r : Dict.t) :
  (forall k0, k0 ∈ Dict.keys (normalize_row r)
     <-> k0 ∈ Dict.keys r \/ exists k, k ∈ Dict.keys r /\ k0 = k +:+ "_raw")
  /\ (NoDup (Dict.keys r) ->
      (forall k k', k ∈ Dict.keys r -> k' ∈ Dict.keys r -> k' <> k +:+ "_raw") ->
      length (Dict.keys (normalize_row r)) = (2 * length (Dict.keys r))%nat
      /\ Forall
           (fun row => length (Dict.keys row) = (2 * length (Dict.keys r))%nat)
           (build_normalized_rows [r])).
Proof.
  split; [apply normalize_row_keys|].
  intros Hnd Hraw.
  assert (Hlen : length (Dict.keys (normalize_row r)) = (2 * length (Dict.keys r))%nat).
  { unfold normalize_row. rewrite fold_normalize_column_length; try done.
    intros k _. split; apply not_elem_of_nil. }
  split; [done|]. repeat constructor. done.
Qed.

(** *** Link extraction *)




(** *** The recency filter *)

Lemma string_app_cons c (a b : string) : String c a +:+ b = String c (a +:+ b).
Proof. reflexivity. Qed.

Lemma string_app_nil (b : string) : "" +:+ b = b.
Proof. reflexivity. Qed.


Lemma startswith_app p s :
  Str.startswith p s = true <-> exists t, s = p +:+ t.
Proof.
  revert s. induction p as [|a p IH]; intros s; simpl.
  - split; [by exists s|done].
  - destruct s as [|b s].
    + split; [done|]. by intros [t Ht].
    + rewrite andb_true_iff, IH. split.
      * intros [Hab [t ->]]. apply Ascii.eqb_eq in Hab as ->. by exists t.
      * intros [t Ht]. injection Ht as -> ->. split; [apply Ascii.eqb_refl|by exists t].
Qed.

Lemma skip_app p t : Re.skip (String.length p) (p +:+ t) = t.
Proof. induction p as [|a p IH]; simpl; [by destruct t|done]. Qed.







Lemma last_char_app prev a b :
  last_char prev (a +:+ b) = last_char (last_char prev a) b.
Proof. revert prev. induction a as [|c a IH]; intros prev; simpl; [done|apply IH]. Qed.





(** *** The row loop *)

Lemma process_row_skipped cols webhook st item :
  qualifies cols item = false -> process_row cols webhook st item = st.
Proof.
  unfold qualifies, process_row. intros Hq.
  destruct (location_is_canada (location_of cols item)); simpl in *; [|done].
  by rewrite Hq.
Qed.

Lemma process_row_qualified cols webhook st item :
  qualifies cols item = true ->
  process_row cols webhook st item
  = let c := update_context cols (ctx st) item in
    let p := resolve cols c item in
    if bool_decide (post_key p ∈ notified st) then with_context st c
    else dispatch webhook st c p.
Proof.
  unfold qualifies, process_row. intros Hq.
  apply andb_true_iff in Hq as [-> ->]. done.
Qed.

Lemma process_row_notified_mono cols webhook st item :
  notified st ⊆ notified (process_row cols webhook st item).
Proof.
  destruct (qualifies cols item) eqn:Hq.
  - rewrite process_row_qualified by done. simpl.
    case_bool_decide; [done|]. unfold dispatch.
    destruct (webhook _ _); simpl; [apply union_subseteq_r|done].
  - by rewrite process_row_skipped.
Qed.

Lemma process_rows_notified_mono cols webhook st rows :
  notified st ⊆ notified (process_rows cols webhook st rows).
Proof.
  revert st. induction rows as [|item rows IH]; intros st; [done|].
  simpl. etrans; [apply (process_row_notified_mono cols webhook)|apply IH].
Qed.

Lemma process_row_trace cols webhook st item :
  exists evs,
    trace (process_row cols webhook st item) = trace st ++ evs
    /\ dispatch_log evs
    /\ length (saves_of evs) = length (sent_of evs).
Proof.
  destruct (qualifies cols item) eqn:Hq.
  - rewrite process_row_qualified by done. simpl.
    case_bool_decide.
    + exists []. simpl. rewrite app_nil_r. split; [done|]. split; [constructor|done].
    + unfold dispatch. destruct (webhook _ _); simpl.
      * eexists. split; [done|]. split; [apply (log_sent _ _ []); constructor|done].
      * eexists. split; [done|]. split; [apply (log_failed _ []); constructor|done].
  - rewrite process_row_skipped by done.
    exists []. rewrite app_nil_r. split; [done|]. split; [constructor|done].
Qed.

Lemma dispatch_log_app evs1 evs2 :
  dispatch_log evs1 -> dispatch_log evs2 -> dispatch_log (evs1 ++ evs2).
Proof.
  intros H1 H2. induction H2 as [|m f evs _ IH|m evs _ IH].
  - by rewrite app_nil_r.
  - rewrite app_assoc. by constructor.
  - rewrite app_assoc. by constructor.
Qed.

Lemma process_rows_trace cols webhook st rows :
  exists evs,
    trace (process_rows cols webhook st rows) = trace st ++ evs
    /\ dispatch_log evs
    /\ length (saves_of evs) = length (sent_of evs).
Proof.
  revert st. induction rows as [|item rows IH]; intros st.
  - exists []. simpl. rewrite app_nil_r. split; [done|]. split; [constructor|done].
  - simpl. destruct (process_row_trace cols webhook st item) as (evs1 & Ht1 & Hl1 & Hn1).
    destruct (IH (process_row cols webhook st item)) as (evs2 & Ht2 & Hl2 & Hn2).
    exists (evs1 ++ evs2). rewrite Ht2, Ht1, app_assoc. split; [done|].
    split; [by apply dispatch_log_app|].
    unfold saves_of, sent_of in *. rewrite !omap_app, !length_app. lia.
Qed.

(** C9. For a qualifying posting whose key is not yet notified: when the
    webhook accepts the embed, the key joins the notified set and the set
    is written to the store in the same iteration, before any later row
    is looked at; when the webhook fails, the set and the store stay as
    they were, so the key stays out.  Over a whole run the notified set
    never loses a member, the loop goes on with the rows after any row,
    and the log is a sequence of accepted embeds, each followed at once by
    one write of the store, and of failures. *)
Theorem dispatch_protocol (cols : columns) (webhook : nat -> message -> bool) :
  (forall st item,
     qualifies cols item = true ->
     let p := resolve cols (update_context cols (ctx st) item) item in
     let st' := process_row cols webhook st item in
     post_key p ∉ notified st ->
     (webhook (attempts st) (post_message p) = true ->
        notified st' = {[post_key p]} ∪ notified st
        /\ store st' = save_notified (notified st')
        /\ trace st' = trace st ++ [Sent (post_message p); Saved (store st')])
     /\ (webhook (attempts st) (post_message p) = false ->
        notified st' = notified st
        /\ (post_key p ∉ notified st')
        /\ store st' = store st
        /\ trace st' = trace st ++ [SendFailed (post_message p)]))
  /\ (forall st rows, notified st ⊆ notified (process_rows cols webhook st rows))
  /\ (forall st before item after,
        process_rows cols webhook st (before ++ item :: after)
        = process_rows cols webhook
            (process_row cols webhook (process_rows cols webhook st before) item) after)
  /\ (forall st rows,
        exists evs,
          trace (process_rows cols webhook st rows) = trace st ++ evs
          /\ dispatch_log evs
          /\ length (saves_of evs) = length (sent_of evs)).
Proof.
  split; [|split; [|split]].
  - intros st item Hq p st' Hnew. subst st'.
    rewrite process_row_qualified by done. cbv zeta. fold p. clearbody p.
    rewrite bool_decide_eq_false_2 by done. unfold dispatch.
    split; intros Hsend; rewrite Hsend; simpl; done.
  - apply process_rows_notified_mono.
  - intros st before item after. unfold process_rows.
    by rewrite fold_left_app.
  - apply process_rows_trace.
Qed.

(** *** Tables without a location or an age column *)

Lemma endswith_app p k : Str.endswith p (k +:+ p) = true.
Proof.
  induction k as [|c k IH].
  - rewrite string_app_nil. destruct p; simpl; [done|].
    by rewrite Ascii.eqb_refl, String.eqb_refl.
  - rewrite string_app_cons. cbn [Str.endswith]. rewrite IH. apply orb_true_r.
Qed.

Lemma human_headers_of_normalized r h :
  h ∈ human_headers_of (Dict.keys (normalize_row r)) -> h ∈ Dict.keys r.
Proof.
  unfold human_headers_of. rewrite list_elem_of_filter, normalize_row_keys.
  intros [Hraw [Hin|(k & _ & ->)]]; [done|].
  unfold raw_key in Hraw. by rewrite endswith_app in Hraw.
Qed.

Lemma find_none_of {A} (p : A -> bool) (l : list A) :
  (forall x, x ∈ l -> p x = false) -> find p l = None.
Proof.
  induction l as [|x l IH]; intros Hall; simpl; [done|].
  rewrite (Hall x) by by left. apply IH. intros y Hy. apply Hall. by right.
Qed.

Lemma first_normalized_row rows :
  nth 0 (build_normalized_rows rows) [] = normalize_row (nth 0 rows []).
Proof. by destruct rows. Qed.

Lemma no_header_with word rows :
  (forall h, h ∈ Dict.keys (nth 0 rows []) ->
     Str.contains word (Str.lower h) = false) ->
  next_or (header_has [word])
    (human_headers_of (Dict.keys (nth 0 (build_normalized_rows rows) []))) None
  = None.
Proof.
  intros Hnone. unfold next_or. rewrite find_none_of; [done|].
  intros h Hh. rewrite first_normalized_row in Hh.
  apply human_headers_of_normalized in Hh.
  unfold header_has. simpl. by rewrite (Hnone h Hh).
Qed.

Lemma process_rows_none_qualify cols webhook st rows :
  (forall item, qualifies cols item = false) ->
  process_rows cols webhook st rows = st.
Proof.
  intros Hq. induction rows as [|item rows IH]; [done|].
  simpl. by rewrite process_row_skipped.
Qed.

(** C10. When no header of the table contains [location], whatever the
    case, the location column resolves to no header and every row's
    location is read as the empty text; likewise for [age].  In either
    case no row passes the filters, and the run sends nothing, writes
    nothing, and ends with the notified set just as it was loaded. *)
Theorem missing_column_disqualifies (webhook : nat -> message -> bool)
    (file : store_file) (rows : list Dict.t) :
  let cols := choose_columns (Dict.keys (nth 0 (build_normalized_rows rows) [])) in
  let no_header word :=
    forall h, h ∈ Dict.keys (nth 0 rows []) ->
      Str.contains word (Str.lower h) = false in
  (no_header "location" ->
     location_header cols = None /\ forall item, location_of cols item = "")
  /\ (no_header "age" ->
     age_header cols = None /\ forall item, age_of cols item = "")
  /\ (no_header "location" \/ no_header "age" ->
     (forall item, qualifies cols item = false)
     /\ notify_rows webhook file rows = initial_state file
     /\ sent_of (trace (notify_rows webhook file rows)) = []
     /\ trace (notify_rows webhook file rows) = []
     /\ store (notify_rows webhook file rows) = file
     /\ notified (notify_rows webhook file rows) = load_notified file).
Proof.
  intros cols no_header.
  assert (Hloc : no_header "location" ->
            location_header cols = None /\ forall item, location_of cols item = "").
  { intros Hnone. assert (Hcol : location_header cols = None)
      by apply (no_header_with "location" rows Hnone).
    split; [done|]. intros item. unfold location_of. by rewrite Hcol. }
  assert (Hage : no_header "age" ->
            age_header cols = None /\ forall item, age_of cols item = "").
  { intros Hnone. assert (Hcol : age_header cols = None)
      by apply (no_header_with "age" rows Hnone).
    split; [done|]. intros item. unfold age_of. by rewrite Hcol. }
  split; [done|]. split; [done|].
  intros Hnone.
  assert (Hq : forall item, qualifies cols item = false).
  { intros item. unfold qualifies. destruct Hnone as [Hnone|Hnone].
    - destruct (Hloc Hnone) as [_ Hempty]. by rewrite Hempty.
    - destruct (Hage Hnone) as [_ Hempty]. rewrite Hempty. apply andb_false_r. }
  assert (Hrun : notify_rows webhook file rows = initial_state file).
  { unfold notify_rows. by apply process_rows_none_qualify. }
  split; [done|]. by rewrite Hrun.
Qed.

(** *** The notified store *)

Lemma string_compare_le_trans a b c :
  String.compare a b <> Gt -> String.compare b c <> Gt -> String.compare a c <> Gt.
Proof.
  revert b c. induction a as [|x a IH]; intros [|y b] [|z c]; simpl; try done.
  unfold Ascii.compare.
  destruct (N.compare_spec (N_of_ascii x) (N_of_ascii y)) as [Hxy|Hxy|Hxy];
    destruct (N.compare_spec (N_of_ascii y) (N_of_ascii z)) as [Hyz|Hyz|Hyz];
    destruct (N.compare_spec (N_of_ascii x) (N_of_ascii z)) as [Hxz|Hxz|Hxz];
    try done; try lia.
  apply IH.
Qed.

Lemma str_le_compare a b : str_le a b <-> String.compare a b <> Gt.
Proof. unfold str_le, String.leb. by destruct (String.compare a b). Qed.

#[global] Instance str_le_trans : Transitive str_le.
Proof.
  intros a b c. rewrite !str_le_compare. apply string_compare_le_trans.
Qed.

#[global] Instance str_le_antisym : AntiSymm (=) str_le.
Proof. intros a b. apply String.leb_antisym. Qed.

#[global] Instance str_le_total : Total str_le.
Proof. intros a b. apply String.leb_total. Qed.

Lemma json_strings_of_strings l : json_strings (map JStr l) = l.
Proof. induction l as [|x l IH]; simpl; [done|]. by rewrite IH. Qed.

Lemma saved_list_sorted members : Sorted str_le (saved_list members).
Proof. apply Sorted_merge_sort; apply _. Qed.

Lemma saved_list_members members k :
  k ∈ saved_list members <-> exists x, x ∈ members /\ k = normalize_url x.
Proof.
  unfold saved_list. rewrite merge_sort_Permutation, list_elem_of_fmap.
  split; intros (x & ? & ?); by exists x.
Qed.

(** The list written does not depend on the order in which the set is
    iterated. *)
Lemma saved_list_permutation l1 l2 :
  l1 ≡ₚ l2 -> saved_list l1 = saved_list l2.
Proof.
  intros Hperm. apply (Sorted_unique str_le); try apply saved_list_sorted.
  unfold saved_list. rewrite !merge_sort_Permutation. by apply fmap_Permutation.
Qed.

Lemma save_notified_any_order (S : gset string) (l : list string) :
  NoDup l -> (forall x, x ∈ l <-> x ∈ S) ->
  save_notified S = StoreList (map JStr (saved_list l)).
Proof.
  intros Hnd Hl. unfold save_notified. do 2 f_equal.
  apply saved_list_permutation, NoDup_Permutation; [apply NoDup_elements|done|].
  intros x. by rewrite elem_of_elements, Hl.
Qed.

(** What is loaded after a save: every member normalized twice. *)
Lemma load_after_save (S : gset string) k :
  k ∈ load_notified (save_notified S)
  <-> exists x, x ∈ S /\ k = normalize_url (normalize_url x).
Proof.
  unfold load_notified, save_notified.
  rewrite json_strings_of_strings, elem_of_list_to_set, list_elem_of_fmap.
  split.
  - intros (y & -> & Hy). apply saved_list_members in Hy as (x & Hx & ->).
    exists x. by rewrite <- elem_of_elements.
  - intros (x & Hx & ->). exists (normalize_url x). split; [done|].
    apply saved_list_members. exists x. by rewrite elem_of_elements.
Qed.

Lemma load_after_save_stable (S : gset string) k :
  k ∈ S -> stable_key k -> k ∈ load_notified (save_notified S).
Proof. intros Hk Hstable. apply load_after_save. by exists k. Qed.

(** The round trip of a set whose members normalization leaves unchanged. *)
Lemma load_after_save_normalized (S : gset string) :
  (forall x, x ∈ S -> normalize_url x = x) ->
  load_notified (save_notified S) = S.
Proof.
  intros Hfix. apply set_eq. intros k. rewrite load_after_save. split.
  - intros (x & Hx & ->). by rewrite !(Hfix x Hx).
  - intros Hk. exists k. by rewrite !(Hfix k Hk).
Qed.

Lemma load_without_list file :
  file = StoreAbsent \/ file = StoreCorrupt \/ file = StoreNotList ->
  load_notified file = ∅.
Proof. by intros [->|[->| ->]]. Qed.

(** *** A second run over the same rows *)

Lemma process_rows_cons cols webhook st item rows :
  process_rows cols webhook st (item :: rows)
  = process_rows cols webhook (process_row cols webhook st item) rows.
Proof. reflexivity. Qed.

Lemma run_keys_cons cols c item rest :
  run_keys cols c (item :: rest)
  = if qualifies cols item
    then post_key (resolve cols (update_context cols c item) item)
         :: run_keys cols (update_context cols c item) rest
    else run_keys cols c rest.
Proof. reflexivity. Qed.

Lemma process_row_ctx cols webhook st item :
  ctx (process_row cols webhook st item)
  = if qualifies cols item then update_context cols (ctx st) item else ctx st.
Proof.
  destruct (qualifies cols item) eqn:Hq.
  - rewrite process_row_qualified by done. cbv zeta.
    case_bool_decide; [done|]. unfold dispatch. by destruct (webhook _ _).
  - by rewrite process_row_skipped.
Qed.

Lemma failures_of_app tr1 tr2 :
  failures_of (tr1 ++ tr2) = failures_of tr1 ++ failures_of tr2.
Proof. apply omap_app. Qed.

Lemma process_row_failures cols webhook st item :
  (length (failures_of (trace st))
   <= length (failures_of (trace (process_row cols webhook st item))))%nat.
Proof.
  destruct (process_row_trace cols webhook st item) as (evs & -> & _).
  unfold failures_of. rewrite omap_app, length_app. lia.
Qed.

Lemma process_rows_failures cols webhook st rows :
  (length (failures_of (trace st))
   <= length (failures_of (trace (process_rows cols webhook st rows))))%nat.
Proof.
  destruct (process_rows_trace cols webhook st rows) as (evs & -> & _).
  unfold failures_of. rewrite omap_app, length_app. lia.
Qed.

(** After a run without a failure, the key of every qualifying row is in
    the notified set. *)
Lemma run_keys_notified cols webhook st rows :
  length (failures_of (trace (process_rows cols webhook st rows)))
  = length (failures_of (trace st)) ->
  forall k, k ∈ run_keys cols (ctx st) rows ->
    k ∈ notified (process_rows cols webhook st rows).
Proof.
  revert st. induction rows as [|item rows IH]; intros st Hfail k Hk.
  - by apply elem_of_nil in Hk.
  - rewrite process_rows_cons in *. rewrite run_keys_cons in Hk.
    pose proof (process_row_failures cols webhook st item) as Hle1.
    pose proof (process_rows_failures cols webhook
                  (process_row cols webhook st item) rows) as Hle2.
    assert (Hrest : forall k', k' ∈ run_keys cols
                      (ctx (process_row cols webhook st item)) rows ->
                    k' ∈ notified (process_rows cols webhook
                                     (process_row cols webhook st item) rows)).
    { apply IH. lia. }
    rewrite process_row_ctx in Hrest.
    destruct (qualifies cols item) eqn:Hq; [|by apply Hrest].
    apply elem_of_cons in Hk as [->|Hk]; [|by apply Hrest].
    apply (process_rows_notified_mono cols webhook).
    rewrite process_row_qualified in Hfail, Hle1, Hle2 |- * by done.
    cbv zeta in *.
    set (p := resolve cols (update_context cols (ctx st) item) item) in *.
    clearbody p.
    case_bool_decide as Hin; [done|].
    unfold dispatch in *. destruct (webhook (attempts st) (post_message p)).
    + simpl. apply elem_of_union_l. by apply elem_of_singleton.
    + exfalso. cbn [trace] in Hle2.
      rewrite failures_of_app, length_app in Hle2.
      change (length (failures_of [SendFailed (post_message p)])) with 1%nat in Hle2.
      lia.
Qed.

(** A run in which the key of every qualifying row is already notified
    changes nothing but the context. *)
Lemma process_rows_all_notified cols webhook st rows :
  (forall k, k ∈ run_keys cols (ctx st) rows -> k ∈ notified st) ->
  trace (process_rows cols webhook st rows) = trace st
  /\ notified (process_rows cols webhook st rows) = notified st
  /\ store (process_rows cols webhook st rows) = store st.
Proof.
  revert st. induction rows as [|item rows IH]; intros st Hall; [done|].
  rewrite process_rows_cons. setoid_rewrite run_keys_cons in Hall.
  destruct (qualifies cols item) eqn:Hq.
  - rewrite process_row_qualified by done. cbv zeta.
    rewrite bool_decide_eq_true_2 by (apply Hall; by left).
    apply (IH (with_context st (update_context cols (ctx st) item))).
    intros k Hk. apply Hall. by right.
  - rewrite process_row_skipped by done. by apply IH.
Qed.

(** The store holds the notified set as last saved, or is still the file
    the run started from. *)
Lemma process_rows_store cols webhook file rows :
  let st := process_rows cols webhook (initial_state file) rows in
  (store st = file /\ notified st = load_notified file)
  \/ store st = save_notified (notified st).
Proof.
  assert (Hgen : forall st,
    (store st = file /\ notified st = load_notified file)
    \/ store st = save_notified (notified st) ->
    (store (process_rows cols webhook st rows) = file
     /\ notified (process_rows cols webhook st rows) = load_notified file)
    \/ store (process_rows cols webhook st rows)
       = save_notified (notified (process_rows cols webhook st rows))).
  { induction rows as [|item rows IH]; intros st Hst; [done|].
    rewrite process_rows_cons. apply IH.
    destruct (qualifies cols item) eqn:Hq.
    - rewrite process_row_qualified by done. cbv zeta.
      case_bool_decide; [done|]. unfold dispatch.
      destruct (webhook _ _); simpl; [by right|done].
    - by rewrite process_row_skipped. }
  apply Hgen. by left.
Qed.

(** Idempotence, for keys that normalization leaves unchanged: after a
    first run without a failure, a second run over the same rows, from
    the store the first run left, sends nothing. *)
Lemma second_run_silent (webhook1 webhook2 : nat -> message -> bool)
    (file : store_file) (rows : list Dict.t) :
  let st1 := notify_rows webhook1 file rows in
  failures_of (trace st1) = [] ->
  (forall k, k ∈ notified st1 -> stable_key k) ->
  trace (notify_rows webhook2 (store st1) rows) = []
  /\ store (notify_rows webhook2 (store st1) rows) = store st1.
Proof.
  unfold notify_rows.
  set (normalized_rows := build_normalized_rows rows).
  set (cols := choose_columns (Dict.keys (nth 0 normalized_rows []))).
  set (st1 := process_rows cols webhook1 (initial_state file) normalized_rows).
  intros Hfail Hstable.
  assert (Hkeys : forall k,
            k ∈ run_keys cols (ctx (initial_state file)) normalized_rows ->
            k ∈ notified st1).
  { apply run_keys_notified. fold st1. by rewrite Hfail. }
  assert (Hloaded : forall k,
            k ∈ run_keys cols (ctx (initial_state (store st1))) normalized_rows ->
            k ∈ notified (initial_state (store st1))).
  { intros k Hk. specialize (Hkeys k Hk).
    pose proof (process_rows_store cols webhook1 file normalized_rows) as Hst.
    cbv zeta in Hst. fold st1 in Hst. cbn [notified initial_state].
    destruct Hst as [[Hstore Hsame]|Hsaved].
    - by rewrite Hstore, <- Hsame.
    - rewrite Hsaved. apply load_after_save_stable; [done|by apply Hstable]. }
  destruct (process_rows_all_notified cols webhook2 _ _ Hloaded) as (Ht & _ & Hs).
  by rewrite Ht, Hs.
Qed.

(** X18. Idempotence for keys that normalization leaves unchanged: when a
    first run over a document completes without a failed send and every
    member of its notified set is left unchanged by two normalizations, a
    second run over the same document, from the store the first run left,
    sends nothing, whatever the webhook would answer. *)
Lemma main_second_run_silent (webhook_url : option string) (md : string)
    (file : store_file) (webhook1 webhook2 : nat -> message -> bool) (st1 : state) :
  main webhook_url (Some md) file webhook1 = Completed st1 ->
  failures_of (trace st1) = [] ->
  (forall k, k ∈ notified st1 -> stable_key k) ->
  dispatched (main webhook_url (Some md) (store st1) webhook2) = [].
Proof.
  unfold main. destruct (truthy webhook_url); [|done]. cbn [negb].
  destruct (truthy (find_section_markdown md RAW_README_KEYWORDS)); [|done].
  cbn [negb].
  destruct (extract_rows md _) as [|r rows]; [done|].
  intros [= <-] Hfail Hstable.
  destruct (second_run_silent webhook1 webhook2 file (r :: rows) Hfail Hstable)
    as [Htrace _].
  unfold dispatched. by rewrite Htrace.
Qed.

(** *** Continuation rows *)

(** X19. A continuation row without a link of its own, right after a row
    that passed both filters, names a company and resolves a link, takes
    the company and the link of that row; its key is then the key of that
    row, and the continuation context is left as that row set it. *)
Lemma continuation_after_qualifying_main_row (cols : columns) (c : context)
    (main_row sub_row : Dict.t) (link : string) :
  is_main_row (company_text_stripped_of cols main_row) = true ->
  current_link_of cols main_row = Some link -> Str.nonempty link = true ->
  company_text_stripped_of cols sub_row = continuation_glyph ->
  truthy (current_link_of cols sub_row) = false ->
  let c1 := update_context cols c main_row in
  let c2 := update_context cols c1 sub_row in
  c2 = c1
  /\ post_company (resolve cols c2 sub_row) = company_text_stripped_of cols main_row
  /\ post_link (resolve cols c2 sub_row) = Some link
  /\ post_key (resolve cols c2 sub_row) = normalize_url link
  /\ post_key (resolve cols c2 sub_row) = post_key (resolve cols c1 main_row).
Proof.
  intros Hmain Hlink Hne Hglyph Hnolink c1 c2.
  assert (Hc1 : c1 = {| last_valid_link := Some link;
                        previous_company := Some (company_text_stripped_of cols main_row) |}).
  { subst c1. unfold update_context. rewrite Hmain, Hlink. simpl. by rewrite Hne. }
  assert (Hc2 : c2 = c1).
  { subst c2. unfold update_context. rewrite Hglyph, Hnolink.
    rewrite andb_false_r.
    replace (is_main_row continuation_glyph) with false by done.
    by destruct c1. }
  split; [done|]. rewrite Hc2, Hc1.
  assert (Hcompany : Str.nonempty (company_text_stripped_of cols main_row) = true).
  { unfold is_main_row in Hmain. by apply andb_true_iff in Hmain as [? _]. }
  unfold resolve, effective_company, py_or.
  cbn [post_company post_link post_key last_valid_link previous_company].
  rewrite ?Hglyph, ?Hnolink, ?Hlink. cbn [truthy]. rewrite ?Hne. cbn [truthy].
  rewrite ?Hne, ?Hcompany, ?String.eqb_refl. done.
Qed.

(** *** More on strings *)

Lemma string_app_assoc (a b c : string) : (a +:+ b) +:+ c = a +:+ (b +:+ c).
Proof.
  induction a as [|x a IH]; [done|].
  rewrite !string_app_cons. by rewrite IH.
Qed.

Lemma string_app_empty_r (a : string) : a +:+ "" = a.
Proof. induction a as [|x a IH]; [done|]. rewrite string_app_cons. by rewrite IH. Qed.

Lemma contains_unfold needle s :
  Str.contains needle s
  = Str.startswith needle s
    || match s with EmptyString => false | String _ s' => Str.contains needle s' end.
Proof. by destruct s. Qed.

Lemma contains_spec needle s :
  Str.contains needle s = true <-> exists pre post, s = pre +:+ needle +:+ post.
Proof.
  split.
  - induction s as [|c s IH]; rewrite contains_unfold, orb_true_iff.
    + intros [Hp|?]; [|done]. apply startswith_app in Hp as [t ->]. by exists "", t.
    + intros [Hp|Hc].
      * apply startswith_app in Hp as [t Ht]. exists "", t. by rewrite Ht.
      * destruct (IH Hc) as (pre & post & ->). by exists (String c pre), post.
  - intros (pre & post & ->). induction pre as [|c pre IH].
    + rewrite string_app_nil, contains_unfold.
      replace (Str.startswith needle (needle +:+ post)) with true; [done|].
      symmetry. apply startswith_app. by exists post.
    + rewrite string_app_cons, contains_unfold, IH. apply orb_true_r.
Qed.

Lemma contains_trans a b s :
  Str.contains a b = true -> Str.contains b s = true -> Str.contains a s = true.
Proof.
  rewrite !contains_spec. intros (p1 & q1 & ->) (p2 & q2 & ->).
  exists (p2 +:+ p1), (q1 +:+ q2). by rewrite !string_app_assoc.
Qed.

Lemma lower_app a b : Str.lower (a +:+ b) = Str.lower a +:+ Str.lower b.
Proof.
  induction a as [|c a IH]; [done|].
  rewrite string_app_cons. simpl. by rewrite IH.
Qed.

Lemma contains_lower a b s :
  Str.contains a b = true -> Str.contains b (Str.lower s) = true ->
  Str.contains a (Str.lower s) = true.
Proof. apply contains_trans. Qed.

(** Stripping. *)

Lemma last_char_cons prev c s : last_char prev (String c s) = last_char None (String c s).
Proof. reflexivity. Qed.










(** *** The section and its pipe table *)

Lemma from_first_spec {A} (p : A -> bool) (l : list A) :
  exists pre,
    l = pre ++ from_first p l
    /\ Forall (fun x => p x = false) pre
    /\ match from_first p l with x :: _ => p x = true | [] => True end.
Proof.
  induction l as [|x l (pre & Hl & Hpre & Hhd)]; simpl.
  - by exists [].
  - destruct (p x) eqn:Hx.
    + by exists [].
    + exists (x :: pre). split; [simpl; congruence|]. split; [by constructor|done].
Qed.

Lemma until_first_spec {A} (p : A -> bool) (l : list A) :
  exists rest,
    l = until_first p l ++ rest
    /\ Forall (fun x => p x = false) (until_first p l)
    /\ match rest with x :: _ => p x = true | [] => True end.
Proof.
  induction l as [|x l (rest & Hl & Hbody & Hhd)]; simpl.
  - by exists [].
  - destruct (p x) eqn:Hx.
    + by exists (x :: l).
    + exists rest. split; [simpl; congruence|]. split; [by constructor|done].
Qed.

Lemma from_first_nil {A} (p : A -> bool) (l : list A) :
  from_first p l = [] <-> Forall (fun x => p x = false) l.
Proof.
  induction l as [|x l IH]; simpl; [done|].
  destruct (p x) eqn:Hx.
  - split; [done|]. intros Hall. apply Forall_cons in Hall as [? _]. congruence.
  - rewrite IH. split; [by constructor|]. by intros [_ ?]%Forall_cons.
Qed.




Lemma find_section_markdown_parts (md : string) (keywords : list string) :
  (find_section_markdown md keywords = None
   <-> Forall (fun ln => line_has_keyword keywords ln = false) (Str.splitlines md))
  /\ (forall section, find_section_markdown md keywords = Some section ->
      exists pre start body rest,
        Str.splitlines md = pre ++ start :: body ++ rest
        /\ Forall (fun ln => line_has_keyword keywords ln = false) pre
        /\ line_has_keyword keywords start = true
        /\ Forall (fun ln => Str.startswith "#" ln = false) body
        /\ match rest with ln :: _ => Str.startswith "#" ln = true | [] => True end
        /\ section = Str.join line_feed (start :: body)).
Proof.
  unfold find_section_markdown. split.
  - rewrite <- from_first_nil.
    by destruct (from_first (line_has_keyword keywords) (Str.splitlines md)).
  - intros section Hsec.
    destruct (from_first_spec (line_has_keyword keywords) (Str.splitlines md))
      as (pre & Hlines & Hpre & Hstart).
    destruct (from_first (line_has_keyword keywords) (Str.splitlines md))
      as [|start following]; [done|].
    injection Hsec as <-.
    destruct (until_first_spec (Str.startswith "#") following)
      as (rest & Hfollowing & Hbody & Hrest).
    exists pre, start, (until_first (Str.startswith "#") following), rest.
    split; [by rewrite <- Hfollowing|]. done.
Qed.






(** *** Rows with repeated header cells *)

Lemma dict_get_set_eq (d : Dict.t) k v : Dict.get (Dict.set d k v) k = Some v.
Proof.
  induction d as [|[k' v'] d IH]; simpl.
  - by rewrite String.eqb_refl.
  - destruct (String.eqb_spec k' k) as [->|Hne]; simpl.
    + by rewrite String.eqb_refl.
    + destruct (String.eqb_spec k' k); [done|exact IH].
Qed.

Lemma dict_get_set_ne (d : Dict.t) k v k0 :
  k0 <> k -> Dict.get (Dict.set d k v) k0 = Dict.get d k0.
Proof.
  intros Hne. induction d as [|[k' v'] d IH]; simpl.
  - destruct (String.eqb_spec k k0); congruence.
  - destruct (String.eqb_spec k' k) as [->|Hk]; simpl.
    + destruct (String.eqb_spec k k0); congruence.
    + by rewrite IH.
Qed.


Lemma dict_get_is_key (d : Dict.t) k : is_Some (Dict.get d k) <-> k ∈ Dict.keys d.
Proof.
  induction d as [|[k' v'] d IH]; simpl.
  - split; [by intros [? ?]|by intros ?%elem_of_nil].
  - destruct (String.eqb_spec k' k) as [->|Hne].
    + split; [by left|by eexists].
    + rewrite IH. split; [by right|].
      intros [?|?]%elem_of_cons; [congruence|done].
Qed.




(** *** The separator line *)




(** *** Markup tables *)

Lemma html_rows_flat_map headers (trs : list (list html_cell)) :
  flat_map
    (fun cells =>
       match cells with
       | [] => []
       | _ =>
           let cell_raw := pad_cells (length headers) (map cell_markup cells) in
           [Dict.of_columns headers (map Str.strip cell_raw)]
       end) trs
  = map (html_row headers) (filter has_cells trs).
Proof.
  induction trs as [|cells trs IH]; [done|].
  destruct cells as [|c cells].
  - rewrite filter_cons_False by (simpl; tauto). by rewrite <- IH.
  - rewrite filter_cons_True by done. cbn [map]. by rewrite <- IH.
Qed.

(** X6. A markup table without any row and without header cells gives
    no result; any other table gives one row for each [<tr>] that has
    cells, from the second [<tr>] on when the first holds a header cell
    and from the first otherwise.  In particular, when the table has no
    header cell at all, the first [<tr>] supplies the headers and is also
    returned as the first data row, each header mapped to the markup of
    its own cell. *)
Theorem parse_html_rows_shape (t : html_table) :
  (table_ths t = [] -> table_trs t = [] -> parse_html_rows t = None)
  /\ (forall first_tr other_trs,
      table_trs t = first_tr :: other_trs ->
      let headers :=
        match table_ths t with [] => map cell_text first_tr | _ => table_ths t end in
      (existsb cell_is_th first_tr = true ->
         parse_html_rows t = Some (map (html_row headers) (filter has_cells other_trs)))
      /\ (existsb cell_is_th first_tr = false ->
         parse_html_rows t
         = Some (map (html_row headers) (filter has_cells (first_tr :: other_trs))))
      /\ (existsb cell_is_th first_tr = false -> table_ths t = [] ->
          first_tr <> [] ->
          exists rows,
            parse_html_rows t
            = Some (html_row (map cell_text first_tr) first_tr :: rows)
            /\ length rows = length (filter has_cells other_trs)))
  /\ (forall headers cells i h,
      NoDup headers -> headers !! i = Some h ->
      Dict.get (html_row headers cells) h
      = Some (Str.strip (nth i (map cell_markup cells) EmptyString))).
Proof.
  split; [|split].
  - intros Hths Htrs. unfold parse_html_rows. by rewrite Hths, Htrs.
  - intros first_tr other_trs Htrs headers.
    assert (Hsome : forall start,
      (match table_trs t with
       | first_tr :: _ => if existsb cell_is_th first_tr then 1%nat else 0%nat
       | [] => 0%nat
       end = start) ->
      parse_html_rows t
      = Some (map (html_row headers) (filter has_cells (skipn start (table_trs t))))).
    { intros start Hstart. unfold parse_html_rows. rewrite Hstart.
      subst headers. rewrite Htrs.
      destruct (table_ths t); by rewrite html_rows_flat_map. }
    split; [|split].
    + intros Hth. rewrite (Hsome 1%nat); [by rewrite Htrs|]. by rewrite Htrs, Hth.
    + intros Hth. rewrite (Hsome 0%nat); [by rewrite Htrs|]. by rewrite Htrs, Hth.
    + intros Hth Hths Hne. rewrite (Hsome 0%nat) by by rewrite Htrs, Hth.
      rewrite Htrs. cbn [skipn]. subst headers. rewrite Hths.
      destruct first_tr as [|c cells]; [done|].
      rewrite filter_cons_True by done. simpl map.
      eexists. split; [done|]. by rewrite length_map.
  - intros headers cells i h Hnd Hi. unfold html_row.
    rewrite (of_columns_get _ _ i h Hnd Hi).
    change EmptyString with (Str.strip EmptyString) at 1.
    by rewrite map_nth, nth_pad_cells.
Qed.

(** *** The location filter *)

(** X7. A row passes the location filter exactly when its location cell
    is not empty and the text the parser extracts from it contains
    [canada], whatever the case.  A row that fails the filter leaves the
    whole loop state as it was, the continuation context included. *)
Theorem location_filter_canada :
  (forall location_text,
     location_is_canada location_text = true
     <-> location_text <> ""
         /\ exists pre post,
              Str.lower (strip_html_tags location_text) = pre +:+ "canada" +:+ post)
  /\ (forall cols webhook st item,
        location_is_canada (location_of cols item) = false ->
        process_row cols webhook st item = st).
Proof.
  split.
  - intros text. unfold location_is_canada. destruct text as [|c text].
    + simpl. split; [done|]. by intros [? _].
    + cbn [Str.nonempty negb]. rewrite contains_spec. split; [by intros ?|by intros [_ ?]].
  - intros cols webhook st item Hloc. unfold process_row. by rewrite Hloc.
Qed.

(** *** The store, read and written *)



(** X9. Saving writes one entry for every member of the set, each
    normalized, in ascending order; the file is the same in whatever
    order the set is iterated, so equal sets give equal files. *)
Theorem save_notified_sorted (S : gset string) :
  exists written,
    save_notified S = StoreList (map JStr written)
    /\ Sorted str_le written
    /\ length written = size S
    /\ (forall k, k ∈ written <-> exists x, x ∈ S /\ k = normalize_url x)
    /\ (forall l, NoDup l -> (forall x, x ∈ l <-> x ∈ S) ->
          written = merge_sort str_le (map normalize_url l)).
Proof.
  exists (saved_list (elements S)). split; [done|].
  split; [apply saved_list_sorted|]. split.
  - unfold saved_list. by rewrite merge_sort_Permutation, length_map.
  - split.
    + intros k. rewrite saved_list_members. by setoid_rewrite elem_of_elements.
    + intros l Hnd Hl. apply saved_list_permutation.
      apply NoDup_Permutation; [apply NoDup_elements|done|].
      intros x. by rewrite elem_of_elements, Hl.
Qed.

(** X10. Loading what was just saved gives every member normalized
    twice.  A set whose members normalization leaves unchanged, such as
    a set of plain URLs, comes back as it was, and a second save then
    writes the same file. *)
Theorem load_save_round_trip (S : gset string) :
  (forall k, k ∈ load_notified (save_notified S)
     <-> exists x, x ∈ S /\ k = normalize_url (normalize_url x))
  /\ ((forall x, x ∈ S -> normalize_url x = x) ->
      load_notified (save_notified S) = S
      /\ save_notified (load_notified (save_notified S)) = save_notified S).
Proof.
  split; [apply load_after_save|].
  intros Hfix. rewrite (load_after_save_normalized S Hfix). done.
Qed.

(** *** The two variants of a column *)

Lemma normalize_column_get_other row k v k0 :
  k0 <> k -> k0 <> raw_key k ->
  Dict.get (normalize_column row (k, v)) k0 = Dict.get row k0.
Proof.
  intros Hk Hraw. unfold normalize_column.
  destruct (looks_like_markup v); by rewrite !dict_get_set_ne.
Qed.

Lemma normalize_column_get row k v :
  Dict.get (normalize_column row (k, v)) k = Some (strip_html_tags v)
  /\ Dict.get (normalize_column row (k, v)) (raw_key k) = Some v.
Proof.
  pose proof (raw_key_neq k) as Hne. unfold normalize_column.
  destruct (looks_like_markup v).
  - split; [apply dict_get_set_eq|].
    rewrite dict_get_set_ne by done. apply dict_get_set_eq.
  - split; [|apply dict_get_set_eq].
    rewrite dict_get_set_ne by done. apply dict_get_set_eq.
Qed.

Lemma fold_normalize_column_get_other r acc k0 :
  k0 ∉ Dict.keys r ->
  (forall k, k ∈ Dict.keys r -> k0 <> raw_key k) ->
  Dict.get (fold_left normalize_column r acc) k0 = Dict.get acc k0.
Proof.
  revert acc. induction r as [|[k v] r IH]; intros acc Hk Hraw; [done|].
  change (Dict.keys ((k, v) :: r)) with (k :: Dict.keys r) in *.
  cbn [fold_left]. rewrite IH.
  - apply normalize_column_get_other.
    + intros ->. apply Hk. by left.
    + apply Hraw. by left.
  - intros Hin. apply Hk. by right.
  - intros k' Hk'. apply Hraw. by right.
Qed.

(** X11. For a raw row with pairwise distinct keys, none of which is
    another key followed by [_raw], the normalized row holds under every
    original key the text the parser extracts from the cell, and under
    the key followed by [_raw] the cell exactly as it was parsed, whether
    it looked like markup or not. *)
Theorem normalize_row_variants (r : Dict.t) :
  NoDup (Dict.keys r) ->
  (forall k k', k ∈ Dict.keys r -> k' ∈ Dict.keys r -> k' <> k +:+ "_raw") ->
  forall k v, (k, v) ∈ r ->
    Dict.get (normalize_row r) k = Some (strip_html_tags v)
    /\ Dict.get (normalize_row r) (k +:+ "_raw") = Some v.
Proof.
  unfold normalize_row. generalize ([] : Dict.t) as acc.
  induction r as [|[k0 v0] r IH]; intros acc Hnd Hraw k v Hin.
  - by apply elem_of_nil in Hin.
  - change (Dict.keys ((k0, v0) :: r)) with (k0 :: Dict.keys r) in *.
    apply NoDup_cons in Hnd as [Hk0 Hnd]. cbn [fold_left].
    apply elem_of_cons in Hin as [[= -> ->]|Hin].
    + destruct (normalize_column_get acc k0 v0) as [Htext Hrawv].
      fold (raw_key k0).
      rewrite !fold_normalize_column_get_other; [done| | | |].
      * intros Hin. apply (Hraw k0 (raw_key k0)); [by left|by right|done].
      * intros k' Hk' Heq. apply raw_key_inj in Heq. by subst.
      * done.
      * intros k' Hk' ->. apply (Hraw k' (raw_key k')); [by right|by left|done].
    + apply IH; [done| |done]. intros k1 k2 H1 H2. apply Hraw; by right.
Qed.

(** *** Keys and embeds *)

Lemma or_default_empty s : or_default s "" = s.
Proof. by destruct s. Qed.


(** X12. A qualifying row with a link of its own is keyed by that link,
    normalized, whatever the continuation context, and its embed carries
    the link.  A row without a link, when no link was resolved before it,
    is keyed by the normalized text of company, role and location joined
    by bars, and its embed says that no link was found.  A continuation
    row without a link takes the last link resolved by a main row. *)
Theorem posting_key_resolution (cols : columns) (c : context) (item : Dict.t) :
  let p := resolve cols c item in
  (forall link, current_link_of cols item = Some link -> Str.nonempty link = true ->
     post_link p = Some link
     /\ post_key p = normalize_url link
     /\ msg_url (post_message p) = Some link
     /\ msg_description (post_message p) = "[Click to apply](" +:+ link +:+ ")")
  /\ (truthy (current_link_of cols item) = false ->
      truthy (last_valid_link c) = false ->
      post_key p
      = normalize_url
          (effective_company c (company_text_stripped_of cols item)
           +:+ "|" +:+ Str.strip (Dict.get_default item (Some (role_header cols)) "")
           +:+ "|" +:+ Str.strip (strip_html_tags (location_of cols item)))
      /\ msg_url (post_message p) = None
      /\ msg_description (post_message p) = "Application link not found.")
  /\ (forall link,
      company_text_stripped_of cols item = continuation_glyph ->
      truthy (current_link_of cols item) = false ->
      last_valid_link c = Some link -> Str.nonempty link = true ->
      post_link p = Some link /\ post_key p = normalize_url link).
Proof.
  intros p. subst p. unfold resolve, py_or.
  cbn [post_link post_key post_message msg_url msg_description].
  split; [|split].
  - intros link -> Hne.
    assert (Ht : truthy (Some link) = true) by exact Hne.
    rewrite Ht. cbv iota. rewrite !Ht. by repeat split.
  - intros -> ->. rewrite or_default_empty. by repeat split.
  - intros link _ -> -> Hne.
    assert (Ht : truthy (Some link) = true) by exact Hne.
    rewrite !Ht. by repeat split.
Qed.


(** *** The bookkeeping of a run *)

Lemma notified_with_new_key (loaded : gset string) (sent : list string) (k : string) :
  {[k]} ∪ (loaded ∪ list_to_set sent) = loaded ∪ list_to_set (sent ++ [k]).
Proof.
  rewrite list_to_set_app_L. cbn [list_to_set foldr].
  rewrite union_empty_r_L, (comm_L (∪) {[k]}). by rewrite (assoc_L (∪)).
Qed.

Lemma sent_of_app tr1 tr2 : sent_of (tr1 ++ tr2) = sent_of tr1 ++ sent_of tr2.
Proof. apply omap_app. Qed.

Lemma saves_of_app tr1 tr2 : saves_of (tr1 ++ tr2) = saves_of tr1 ++ saves_of tr2.
Proof. apply omap_app. Qed.

Lemma process_row_bookkeeping loaded cols webhook st item :
  run_bookkeeping loaded st ->
  run_bookkeeping loaded (process_row cols webhook st item).
Proof.
  intros (Hnd & Hset & Hnew & Hsent & Hsaves & Hatt).
  destruct (qualifies cols item) eqn:Hq; [|by rewrite process_row_skipped].
  rewrite process_row_qualified by done. cbv zeta.
  set (p := resolve cols (update_context cols (ctx st) item) item). clearbody p.
  case_bool_decide as Hin; [done|].
  assert (Hfresh : (post_key p ∉ loaded) /\ (post_key p ∉ newly_notified st)).
  { rewrite Hset in Hin. split; intros Hk; apply Hin.
    - by apply elem_of_union_l.
    - apply elem_of_union_r. by apply elem_of_list_to_set. }
  destruct Hfresh as [Hk1 Hk2].
  unfold dispatch. destruct (webhook (attempts st) (post_message p));
    unfold run_bookkeeping;
    cbn [notified store ctx newly_notified attempts trace];
    rewrite ?sent_of_app, ?saves_of_app, ?failures_of_app, ?length_app.
  - split.
    { apply NoDup_app. split; [done|]. split; [|apply NoDup_singleton].
      intros x Hx ?%list_elem_of_singleton. by subst. }
    split; [rewrite Hset; apply notified_with_new_key|].
    split.
    { intros k [?|Hk%list_elem_of_singleton]%elem_of_app; [by apply Hnew|by subst]. }
    simpl. lia.
  - split; [done|]. split; [done|]. split; [done|]. simpl. lia.
Qed.

Lemma process_rows_bookkeeping loaded cols webhook st rows :
  run_bookkeeping loaded st ->
  run_bookkeeping loaded (process_rows cols webhook st rows).
Proof.
  revert st. induction rows as [|item rows IH]; intros st Hst; [done|].
  rewrite process_rows_cons. by apply IH, process_row_bookkeeping.
Qed.

Lemma process_rows_newly cols webhook st rows k :
  k ∈ newly_notified (process_rows cols webhook st rows) ->
  k ∈ newly_notified st \/ k ∈ run_keys cols (ctx st) rows.
Proof.
  revert st. induction rows as [|item rows IH]; intros st Hk; [by left|].
  rewrite process_rows_cons in Hk. rewrite run_keys_cons.
  apply IH in Hk. rewrite process_row_ctx in Hk.
  destruct (qualifies cols item) eqn:Hq.
  - rewrite process_row_qualified in Hk by done. cbv zeta in Hk.
    destruct Hk as [Hk|Hk]; [|right; by right].
    case_bool_decide; [by left|]. unfold dispatch in Hk.
    destruct (webhook _ _); cbn [newly_notified] in Hk; [|by left].
    apply elem_of_app in Hk as [?|Hk%list_elem_of_singleton]; [by left|].
    subst k. right. by left.
  - rewrite process_row_skipped in Hk by done. destruct Hk; [by left|by right].
Qed.

Lemma process_rows_attempts cols webhook st rows :
  (attempts (process_rows cols webhook st rows)
   <= attempts st + length (run_keys cols (ctx st) rows))%nat.
Proof.
  revert st. induction rows as [|item rows IH]; intros st; [simpl; lia|].
  rewrite process_rows_cons, run_keys_cons.
  specialize (IH (process_row cols webhook st item)).
  rewrite process_row_ctx in IH.
  destruct (qualifies cols item) eqn:Hq.
  - assert (attempts (process_row cols webhook st item) <= S (attempts st))%nat.
    { rewrite process_row_qualified by done. cbv zeta.
      case_bool_decide; [simpl; lia|]. unfold dispatch.
      destruct (webhook _ _); simpl; lia. }
    simpl. lia.
  - rewrite process_row_skipped in IH |- * by done. lia.
Qed.

Lemma run_keys_length cols c rows : (length (run_keys cols c rows) <= length rows)%nat.
Proof.
  revert c. induction rows as [|item rows IH]; intros c; [done|].
  rewrite run_keys_cons. destruct (qualifies cols item); simpl.
  - specialize (IH (update_context cols c item)). lia.
  - specialize (IH c). lia.
Qed.

(** X14. In every run the keys sent are pairwise distinct, none of them
    was in the set loaded at the start, and each is the key of a row that
    passed both filters; the notified set at the end is the loaded set
    together with the keys sent; each accepted embed is followed by one
    write of the store; and the webhook is called at most once for each
    qualifying row, every call being either accepted or refused (no
    retry). *)
Theorem run_sends_each_key_once (webhook : nat -> message -> bool)
    (file : store_file) (rows : list Dict.t) :
  let normalized_rows := build_normalized_rows rows in
  let cols := choose_columns (Dict.keys (nth 0 normalized_rows [])) in
  let st := notify_rows webhook file rows in
  NoDup (newly_notified st)
  /\ (forall k, k ∈ newly_notified st ->
        (k ∉ load_notified file)
        /\ k ∈ run_keys cols (ctx (initial_state file)) normalized_rows)
  /\ notified st = load_notified file ∪ list_to_set (newly_notified st)
  /\ length (sent_of (trace st)) = length (newly_notified st)
  /\ length (saves_of (trace st)) = length (newly_notified st)
  /\ attempts st = (length (sent_of (trace st)) + length (failures_of (trace st)))%nat
  /\ (attempts st
      <= length (run_keys cols (ctx (initial_state file)) normalized_rows)
      <= length rows)%nat.
Proof.
  intros normalized_rows cols st.
  assert (Hinit : run_bookkeeping (load_notified file) (initial_state file)).
  { unfold run_bookkeeping. simpl. split; [constructor|].
    split; [by rewrite union_empty_r_L|]. split; [|done].
    by intros k ?%elem_of_nil. }
  destruct (process_rows_bookkeeping _ cols webhook _ normalized_rows Hinit)
    as (Hnd & Hset & Hnew & Hsent & Hsaves & Hatt).
  fold (notify_rows webhook file rows) in *. fold st in Hnd, Hset, Hnew, Hsent, Hsaves, Hatt.
  split; [done|]. split.
  { intros k Hk. split; [by apply Hnew|].
    destruct (process_rows_newly cols webhook (initial_state file) normalized_rows k Hk)
      as [Hin|Hin]; [by apply elem_of_nil in Hin|done]. }
  split; [done|]. split; [done|]. split; [done|]. split; [done|].
  split.
  - apply (process_rows_attempts cols webhook (initial_state file) normalized_rows).
  - etrans; [apply run_keys_length|]. subst normalized_rows.
    unfold build_normalized_rows. by rewrite length_map.
Qed.

Lemma process_row_store_follows file cols webhook st item :
  store_follows_sends file st ->
  store_follows_sends file (process_row cols webhook st item).
Proof.
  intros Hst.
  destruct (qualifies cols item) eqn:Hq; [|by rewrite process_row_skipped].
  rewrite process_row_qualified by done. cbv zeta.
  set (p := resolve cols (update_context cols (ctx st) item) item). clearbody p.
  case_bool_decide as Hin; [done|].
  unfold dispatch. destruct (webhook (attempts st) (post_message p));
    unfold store_follows_sends; cbn [notified store trace];
    rewrite ?sent_of_app, ?saves_of_app.
  - right. split; [by destruct (sent_of (trace st))|]. split; [done|].
    cbn [saves_of omap list_omap]. by rewrite last_snoc.
  - cbn [sent_of saves_of omap list_omap]. rewrite !app_nil_r. exact Hst.
Qed.

(** X15. The store is written only after an accepted embed.  A run in
    which nothing was sent leaves the file as it found it; after a run in
    which something was sent, the store holds the whole notified set as
    written by the last save, whatever failed afterwards. *)
Theorem store_written_only_after_send (webhook : nat -> message -> bool)
    (file : store_file) (rows : list Dict.t) :
  let st := notify_rows webhook file rows in
  (sent_of (trace st) = [] ->
     store st = file /\ notified st = load_notified file /\ saves_of (trace st) = [])
  /\ (sent_of (trace st) <> [] ->
     store st = save_notified (notified st)
     /\ last (saves_of (trace st)) = Some (store st)).
Proof.
  intros st.
  assert (Hgen : forall rows0 st0, store_follows_sends file st0 ->
            store_follows_sends file
              (process_rows
                 (choose_columns (Dict.keys (nth 0 (build_normalized_rows rows) [])))
                 webhook st0 rows0)).
  { induction rows0 as [|item rows0 IH]; intros st0 Hst0; [done|].
    rewrite process_rows_cons. by apply IH, process_row_store_follows. }
  assert (Hst : store_follows_sends file st).
  { apply Hgen. by left. }
  destruct Hst as [(Hsent & Hstore & Hset & Hsaves)|(Hsent & Hstore & Hlast)].
  - split; [done|]. by intros [].
  - split; [by intros ?|done].
Qed.

(** *** Document order *)

Lemma run_postings_cons cols c item rest :
  run_postings cols c (item :: rest)
  = if qualifies cols item
    then resolve cols (update_context cols c item) item
         :: run_postings cols (update_context cols c item) rest
    else run_postings cols c rest.
Proof. reflexivity. Qed.

Lemma process_rows_in_order cols webhook st rows :
  exists sent keys,
    sent_of (trace (process_rows cols webhook st rows)) = sent_of (trace st) ++ sent
    /\ newly_notified (process_rows cols webhook st rows) = newly_notified st ++ keys
    /\ sublist sent (map post_message (run_postings cols (ctx st) rows))
    /\ sublist keys (map post_key (run_postings cols (ctx st) rows)).
Proof.
  revert st. induction rows as [|item rows IH]; intros st.
  - exists [], []. by rewrite !app_nil_r.
  - rewrite process_rows_cons, run_postings_cons.
    destruct (IH (process_row cols webhook st item)) as (sent & keys & Hs & Hk & Hss & Hks).
    rewrite Hs, Hk. rewrite process_row_ctx in Hss, Hks. clear Hs Hk.
    destruct (qualifies cols item) eqn:Hq.
    + rewrite process_row_qualified by done. cbv zeta.
      set (c := update_context cols (ctx st) item) in *.
      case_bool_decide.
      * exists sent, keys. split; [done|]. split; [done|].
        split; by apply sublist_cons.
      * unfold dispatch. destruct (webhook _ _); cbn [trace newly_notified].
        -- exists (post_message (resolve cols c item) :: sent),
                  (post_key (resolve cols c item) :: keys).
           rewrite sent_of_app. cbn [sent_of omap list_omap].
           rewrite <- !app_assoc. split; [done|]. split; [done|].
           split; by apply sublist_skip.
        -- exists sent, keys. rewrite sent_of_app. cbn [sent_of omap list_omap].
           rewrite app_nil_r. split; [done|]. split; [done|].
           split; by apply sublist_cons.
    + rewrite process_row_skipped by done. by exists sent, keys.
Qed.

Lemma process_rows_ctx_independent cols webhook1 webhook2 st1 st2 rows :
  ctx st1 = ctx st2 ->
  ctx (process_rows cols webhook1 st1 rows) = ctx (process_rows cols webhook2 st2 rows).
Proof.
  revert st1 st2. induction rows as [|item rows IH]; intros st1 st2 Hctx; [done|].
  rewrite !process_rows_cons. apply IH. rewrite !process_row_ctx. by rewrite Hctx.
Qed.

(** X16. The embeds go out in document order: the embeds accepted and
    the keys recorded in a run are, in order, among the postings of the
    rows that pass both filters.  How a row is resolved depends on the
    rows before it only: the continuation context at the end of a run is
    the same whatever the webhook answered and whatever the store held. *)
Theorem dispatch_in_document_order (webhook : nat -> message -> bool)
    (file : store_file) (rows : list Dict.t) :
  let normalized_rows := build_normalized_rows rows in
  let cols := choose_columns (Dict.keys (nth 0 normalized_rows [])) in
  let postings := run_postings cols (ctx (initial_state file)) normalized_rows in
  let st := notify_rows webhook file rows in
  sublist (sent_of (trace st)) (map post_message postings)
  /\ sublist (newly_notified st) (map post_key postings)
  /\ (forall webhook' file',
        postings = run_postings cols (ctx (initial_state file')) normalized_rows
        /\ ctx (notify_rows webhook' file' rows) = ctx st).
Proof.
  intros normalized_rows cols postings st.
  destruct (process_rows_in_order cols webhook (initial_state file) normalized_rows)
    as (sent & keys & Hs & Hk & Hss & Hks).
  change st with (process_rows cols webhook (initial_state file) normalized_rows).
  rewrite Hs, Hk.
  split; [exact Hss|]. split; [exact Hks|].
  intros webhook' file'. split; [done|].
  by apply process_rows_ctx_independent.
Qed.

(** *** How a run ends *)

Lemma readme_keyword_line line :
  line_has_keyword RAW_README_KEYWORDS line
  = Str.contains "software engineering" (Str.lower line).
Proof.
  unfold line_has_keyword, RAW_README_KEYWORDS. cbn [existsb].
  change (Str.lower "Software Engineering Internship Roles")
    with "software engineering internship roles".
  change (Str.lower "Software Engineering") with "software engineering".
  rewrite orb_false_r.
  destruct (Str.contains "software engineering internship roles" (Str.lower line))
    eqn:Hlong; [|done].
  symmetry. by apply (contains_trans _ "software engineering internship roles").
Qed.

Lemma readme_section_nonempty md section :
  find_section_markdown md RAW_README_KEYWORDS = Some section ->
  Str.nonempty section = true.
Proof.
  intros Hsec.
  destruct (proj2 (find_section_markdown_parts md RAW_README_KEYWORDS) _ Hsec)
    as (pre & start & body & rest & _ & _ & Hstart & _ & _ & ->).
  rewrite readme_keyword_line in Hstart.
  destruct start as [|c start]; [done|]. by destruct body.
Qed.

(** X17. A run without a webhook address ends with code 2 before
    anything is fetched; a failed fetch ends the run; the run ends with
    code 1 exactly when no line of the document contains
    [software engineering], whatever the case (the longer keyword adds
    nothing); it ends with code 0 exactly when the section yields no row,
    and a pipe table in the section that has no data row ends it so
    without the markup tables being looked at; otherwise the row loop
    runs over the rows found.  Embeds are sent by a completed run only. *)
Theorem main_outcomes (webhook_url fetched : option string) (file : store_file)
    (webhook : nat -> message -> bool) :
  let outcome := main webhook_url fetched file webhook in
  (truthy webhook_url = false -> outcome = Exit 2)
  /\ (truthy webhook_url = true -> fetched = None -> outcome = Raised)
  /\ (forall md, truthy webhook_url = true -> fetched = Some md ->
      (outcome = Exit 1
       <-> Forall (fun ln => Str.contains "software engineering" (Str.lower ln) = false)
             (Str.splitlines md))
      /\ forall section,
           find_section_markdown md RAW_README_KEYWORDS = Some section ->
           (outcome = Exit 0 <-> extract_rows md section = [])
           /\ (extract_rows md section <> [] ->
               outcome = Completed (notify_rows webhook file (extract_rows md section)))
           /\ (forall table_lines,
                 extract_first_markdown_table section = Some table_lines ->
                 parse_markdown_table table_lines = [] -> outcome = Exit 0))
  /\ (dispatched outcome <> [] -> exists st, outcome = Completed st).
Proof.
  intros outcome. subst outcome. unfold main.
  split; [by intros ->|]. split; [by intros -> ->|]. split.
  - intros md -> ->. cbn [negb].
    destruct (find_section_markdown md RAW_README_KEYWORDS) as [section|] eqn:Hsec.
    + cbn [truthy]. rewrite (readme_section_nonempty md section Hsec).
      change (default "" (Some section)) with section. cbn [negb].
      split.
      * split.
        -- by destruct (extract_rows md section).
        -- intros Hnone. exfalso.
           assert (Hnone' : Forall (fun ln => line_has_keyword RAW_README_KEYWORDS ln = false)
                              (Str.splitlines md)).
           { eapply Forall_impl; [exact Hnone|]. intros ln Hln.
             by rewrite readme_keyword_line. }
           apply find_section_markdown_parts in Hnone'. congruence.
      * intros section' [= <-].
        assert (Hrows : forall rows, extract_rows md section = rows ->
          (match rows with [] => Exit 0
           | r :: rows' => Completed (notify_rows webhook file (r :: rows')) end = Exit 0
           <-> rows = [])
          /\ (rows <> [] ->
              match rows with [] => Exit 0
              | r :: rows' => Completed (notify_rows webhook file (r :: rows')) end
              = Completed (notify_rows webhook file rows))).
        { intros [|r rows'] _; split; done. }
        destruct (Hrows _ eq_refl) as [Hzero Hloop].
        split; [exact Hzero|]. split; [exact Hloop|].
        intros table_lines Htable Hparse. apply Hzero.
        unfold extract_rows. by rewrite Htable.
    + simpl. split; [|done]. split; [intros _|done].
      apply find_section_markdown_parts in Hsec.
      eapply Forall_impl; [exact Hsec|]. intros ln Hln.
      by rewrite <- readme_keyword_line.
  - destruct (truthy webhook_url); [|done]. destruct fetched as [md|]; [|done].
    cbn [negb]. destruct (truthy (find_section_markdown md RAW_README_KEYWORDS)); [|done].
    cbn [negb]. destruct (extract_rows md _); [done|]. intros _. by eexists.
Qed.

(** *** The links found by the patterns *)











(** *** The columns chosen *)





(** X22. A qualifying row whose key is already in the notified set is
    dropped without a call of the webhook and without a write of the
    store; it still updates the continuation context for the rows after
    it. *)
Theorem already_notified_row_is_silent (cols : columns)
    (webhook : nat -> message -> bool) (st : state) (item : Dict.t) :
  qualifies cols item = true ->
  post_key (resolve cols (update_context cols (ctx st) item) item) ∈ notified st ->
  let st' := process_row cols webhook st item in
  trace st' = trace st
  /\ attempts st' = attempts st
  /\ notified st' = notified st
  /\ newly_notified st' = newly_notified st
  /\ store st' = store st
  /\ ctx st' = update_context cols (ctx st) item.
Proof.
  intros Hq Hin st'. subst st'. rewrite process_row_qualified by done. cbv zeta.
  by rewrite bool_decide_eq_true_2.
Qed.

End Pipeline.

(** ** The properties at concrete inputs *)


(** C7 as stated fails: a table may have a header that is another header
    followed by [_raw], and then the two share a key of the normalized
    row. *)
Lemma normalized_row_not_twice_the_keys :
  let r := [("a", "x"); ("a_raw", "y")] in
  NoDup (Dict.keys r)
  /\ parse_markdown_table ["| a | a_raw |"; "| --- | --- |"; "| x | y |"] = [r]
  /\ Dict.keys (normalize_row Plain.get_text r) = ["a"; "a_raw"; "a_raw_raw"]
  /\ length (Dict.keys (normalize_row Plain.get_text r))
     <> (2 * length (Dict.keys r))%nat.
Proof.
  split; [apply (bool_decide_unpack _); vm_compute; exact I|].
  split; [reflexivity|].
  split; [reflexivity|].
  vm_compute. discriminate.
Defined.

Lemma normalized_row_key_shape_witness :
  let r := [("Company", "Acme"); ("Role", "SWE Intern")] in
  NoDup (Dict.keys r)
  /\ (forall k k', k ∈ Dict.keys r -> k' ∈ Dict.keys r -> k' <> k +:+ "_raw")
  /\ length (Dict.keys (normalize_row Plain.get_text r)) = 4%nat.
Proof.
  assert (Hnd : NoDup (Dict.keys [("Company", "Acme"); ("Role", "SWE Intern")])).
  { apply (bool_decide_unpack _). vm_compute. exact I. }
  assert (Hraw : forall k k',
             k ∈ Dict.keys [("Company", "Acme"); ("Role", "SWE Intern")] ->
             k' ∈ Dict.keys [("Company", "Acme"); ("Role", "SWE Intern")] ->
             k' <> k +:+ "_raw").
  { simpl. intros k k' Hk Hk'.
    repeat (apply elem_of_cons in Hk as [->|Hk]);
      repeat (apply elem_of_cons in Hk' as [->|Hk']);
      try (by apply elem_of_nil in Hk); try (by apply elem_of_nil in Hk');
      discriminate. }
  split; [exact Hnd|]. split; [exact Hraw|].
  exact (proj1 (proj2 (normalized_row_key_shape Plain.get_text
                         [("Company", "Acme"); ("Role", "SWE Intern")]) Hnd Hraw)).
Defined.



Lemma dispatch_protocol_witness :
  let row := normalize_row Plain.get_text
    [("Company", "Acme"); ("Location", "Toronto, Canada");
     ("Application", "https://acme.example/jobs/1"); ("Age", "0d")] in
  let cols := choose_columns (Dict.keys row) in
  let st := initial_state Plain.unescape StoreAbsent in
  let process webhook :=
    process_row Plain.unescape Plain.get_text Plain.anchor_hrefs cols webhook st row in
  qualifies Plain.get_text cols row = true
  /\ elements (notified (process Plain.accept_all)) = ["https://acme.example/jobs/1"]
  /\ store (process Plain.accept_all)
     = StoreList [JStr "https://acme.example/jobs/1"]
  /\ notified (process Plain.refuse_all) = notified st
  /\ store (process Plain.refuse_all) = StoreAbsent.
Proof.
  assert (Hq :
    qualifies Plain.get_text
      (choose_columns (Dict.keys (normalize_row Plain.get_text
         [("Company", "Acme"); ("Location", "Toronto, Canada");
          ("Application", "https://acme.example/jobs/1"); ("Age", "0d")])))
      (normalize_row Plain.get_text
         [("Company", "Acme"); ("Location", "Toronto, Canada");
          ("Application", "https://acme.example/jobs/1"); ("Age", "0d")]) = true)
    by reflexivity.
  pose proof (fun webhook =>
    proj1 (dispatch_protocol Plain.unescape Plain.get_text Plain.anchor_hrefs
             (choose_columns (Dict.keys (normalize_row Plain.get_text
                [("Company", "Acme"); ("Location", "Toronto, Canada");
                 ("Application", "https://acme.example/jobs/1"); ("Age", "0d")])))
             webhook)
      (initial_state Plain.unescape StoreAbsent)
      (normalize_row Plain.get_text
         [("Company", "Acme"); ("Location", "Toronto, Canada");
          ("Application", "https://acme.example/jobs/1"); ("Age", "0d")])
      Hq (not_elem_of_empty _)) as Hstep.
  destruct (Hstep Plain.accept_all) as [Hsent _].
  destruct (Hstep Plain.refuse_all) as [_ Hfailed].
  destruct (Hsent eq_refl) as (Hnotified & Hstore & _).
  destruct (Hfailed eq_refl) as (Hsame & _ & Hkept & _).
  split; [exact Hq|].
  split; [rewrite Hnotified; reflexivity|].
  split; [rewrite Hstore, Hnotified; reflexivity|].
  split; [exact Hsame|exact Hkept].
Defined.

Lemma missing_column_disqualifies_witness :
  let rows := parse_markdown_table
    ["| Company | Role | Application | Age |"; "| --- | --- | --- | --- |";
     "| Acme | SWE Intern | https://acme.example/jobs/1 | 0d |"] in
  (forall h, h ∈ Dict.keys (nth 0 rows []) ->
     Str.contains "location" (Str.lower h) = false)
  /\ notify_rows Plain.unescape Plain.get_text Plain.anchor_hrefs
       Plain.accept_all StoreAbsent rows
     = initial_state Plain.unescape StoreAbsent.
Proof.
  assert (Hnone : forall h,
    h ∈ Dict.keys (nth 0 (parse_markdown_table
      ["| Company | Role | Application | Age |"; "| --- | --- | --- | --- |";
       "| Acme | SWE Intern | https://acme.example/jobs/1 | 0d |"]) []) ->
    Str.contains "location" (Str.lower h) = false).
  { intros h Hh. vm_compute in Hh.
    repeat (apply elem_of_cons in Hh as [->|Hh]); try reflexivity.
    by apply elem_of_nil in Hh. }
  split; [exact Hnone|].
  exact (proj1 (proj2 (proj2 (proj2
           (missing_column_disqualifies Plain.unescape Plain.get_text
              Plain.anchor_hrefs Plain.accept_all StoreAbsent
              (parse_markdown_table
                 ["| Company | Role | Application | Age |";
                  "| --- | --- | --- | --- |";
                  "| Acme | SWE Intern | https://acme.example/jobs/1 | 0d |"])))
           (or_introl Hnone)))).
Defined.

(** ** The defects, at concrete documents

    The documents below are pipe tables without markup, so the stand-ins
    of [Plain] answer as the libraries do. *)

(** C1 at a document whose only posting has a link with an ampersand
    escaped three times.  The first run sends it and saves its key; the
    key is unescaped once more when saved and once more when loaded, so
    the second run does not find it and sends the same embed again. *)
Lemma second_run_renotifies_escaped_link :
  let md := Plain.document
    ["| Company | Role | Location | Application | Age |";
     "| --- | --- | --- | --- | --- |";
     "| Acme | SWE Intern | Toronto, Canada | https://acme.example/apply?team=a&amp;amp;amp;b | 0d |"] in
  let run file :=
    main Plain.unescape Plain.get_text Plain.anchor_hrefs Plain.find_table
      (Some "https://discord.example/hook") (Some md) file Plain.accept_all in
  match run StoreAbsent with
  | Completed st1 =>
      failures_of (trace st1) = []
      /\ length (sent_of (trace st1)) = 1%nat
      /\ elements (notified st1) = ["https://acme.example/apply?team=a&amp;b"]
      /\ store st1 = StoreList [JStr "https://acme.example/apply?team=a&b"]
      /\ elements (load_notified Plain.unescape (store st1))
         = ["https://acme.example/apply?team=a&b"]
      /\ dispatched (run (store st1)) = sent_of (trace st1)
      /\ length (dispatched (run (store st1))) = 1%nat
  | _ => False
  end.
Proof. vm_compute. repeat split; reflexivity. Qed.

(** C2 at a continuation row in Canada under a main row elsewhere: the
    main row is skipped by the location filter before the context is
    updated, so the continuation row is sent under the glyph, without the
    link of its main row. *)
Lemma continuation_of_filtered_main_row :
  let md := Plain.document
    ["| Company | Role | Location | Application | Age |";
     "| --- | --- | --- | --- | --- |";
     "| Acme | SWE Intern | New York, NY | [Apply](https://acme.example/jobs/1) | 0d |";
     "| ↳ | SWE Intern | Toronto, Canada | | 0d |"] in
  dispatched
    (main Plain.unescape Plain.get_text Plain.anchor_hrefs Plain.find_table
       (Some "https://discord.example/hook") (Some md) StoreAbsent Plain.accept_all)
  = [{| msg_title :=
          "New Canada Software Engineering Intern " +:+ em_dash +:+ " "
          +:+ continuation_glyph;
        msg_description := "Application link not found.";
        msg_url := None;
        msg_fields :=
          [("Company", continuation_glyph); ("Role", "SWE Intern");
           ("Location", "Toronto, Canada"); ("Age", "0d")] |}].
Proof. vm_compute. reflexivity. Qed.

(** C3 at a main row without a link under a main row with one: the second
    row takes the link of the first as its key, and is dropped as already
    notified. *)
Lemma linkless_main_row_takes_earlier_link :
  let table :=
    ["| Company | Role | Location | Application | Age |";
     "| --- | --- | --- | --- | --- |";
     "| Acme | SWE Intern | Toronto, Canada | [Apply](https://acme.example/jobs/1) | 0d |";
     "| Globex | Data Intern | Ottawa, Canada | | 0d |"] in
  let rows := build_normalized_rows Plain.get_text (parse_markdown_table table) in
  let cols := choose_columns (Dict.keys (nth 0 rows [])) in
  map (company_text_stripped_of Plain.get_text cols) rows = ["Acme"; "Globex"]
  /\ map (current_link_of Plain.unescape Plain.anchor_hrefs cols) rows
     = [Some "https://acme.example/jobs/1"; None]
  /\ run_keys Plain.unescape Plain.get_text Plain.anchor_hrefs cols
       {| last_valid_link := None; previous_company := None |} rows
     = ["https://acme.example/jobs/1"; "https://acme.example/jobs/1"]
  /\ map msg_title
       (dispatched
          (main Plain.unescape Plain.get_text Plain.anchor_hrefs Plain.find_table
             (Some "https://discord.example/hook") (Some (Plain.document table))
             StoreAbsent Plain.accept_all))
     = ["New Canada Software Engineering Intern " +:+ em_dash +:+ " Acme"].
Proof. vm_compute. repeat split; reflexivity. Qed.

(** C8 at a set whose member holds an ampersand escaped twice: the save
    unescapes it once and the load once more, so what is loaded is not the
    set after normalization. *)
Lemma round_trip_unescapes_twice :
  let S : gset string := {["&amp;amp;"]} in
  map (normalize_url Plain.unescape) (elements S) = ["&amp;"]
  /\ save_notified Plain.unescape S = StoreList [JStr "&amp;"]
  /\ elements (load_notified Plain.unescape (save_notified Plain.unescape S)) = ["&"]
  /\ bool_decide
       ("&amp;" ∈ load_notified Plain.unescape (save_notified Plain.unescape S))
     = false.
Proof. vm_compute. repeat split; reflexivity. Qed.

(** ** The further properties at concrete inputs *)






Lemma parse_html_rows_shape_witness :
  let td text := {| cell_is_th := false; cell_markup := "<td>" +:+ text +:+ "</td>";
                    cell_text := text |} in
  let t := {| table_ths := [];
              table_trs := [[td "Company"; td "Location"]; [];
                            [td "Acme"; td "Toronto, Canada"]] |} in
  exists rows,
    parse_html_rows t
    = Some ([("Company", "<td>Company</td>"); ("Location", "<td>Location</td>")] :: rows)
    /\ length rows = 1%nat.
Proof.
  set (td := fun text => {| cell_is_th := false;
                            cell_markup := "<td>" +:+ text +:+ "</td>";
                            cell_text := text |}).
  destruct (proj2 (proj1 (proj2 (parse_html_rows_shape
              {| table_ths := [];
                 table_trs := [[td "Company"; td "Location"]; [];
                               [td "Acme"; td "Toronto, Canada"]] |}))
              [td "Company"; td "Location"] [[]; [td "Acme"; td "Toronto, Canada"]]
              eq_refl))
    as [_ Hfirst].
  destruct (Hfirst eq_refl eq_refl) as (rows & Hrows & Hlen); [discriminate|].
  exists rows. split; [exact Hrows|exact Hlen].
Defined.

Lemma location_filter_canada_witness :
  location_is_canada Plain.get_text "Toronto, CANADA" = true
  /\ location_is_canada Plain.get_text "Canadian River, USA" = false
  /\ location_is_canada Plain.get_text "" = false.
Proof.
  split; [|split; reflexivity].
  apply (proj1 (location_filter_canada Plain.unescape Plain.get_text Plain.anchor_hrefs)).
  split; [discriminate|]. by exists "toronto, ", "".
Defined.


Lemma save_notified_sorted_witness :
  save_notified Plain.unescape {["https://b.example/2"; "https://a.example/1"]}
  = StoreList [JStr "https://a.example/1"; JStr "https://b.example/2"].
Proof.
  destruct (save_notified_sorted Plain.unescape
              {["https://b.example/2"; "https://a.example/1"]})
    as (written & Hfile & _ & _ & _ & Horder).
  rewrite Hfile.
  rewrite (Horder ["https://b.example/2"; "https://a.example/1"]).
  - reflexivity.
  - apply (bool_decide_unpack _). vm_compute. exact I.
  - intros x. rewrite elem_of_union, !elem_of_singleton, elem_of_cons,
      list_elem_of_singleton. reflexivity.
Defined.

Lemma load_save_round_trip_witness :
  let S : gset string := {["https://a.example/1"]} in
  (forall x, x ∈ S -> normalize_url Plain.unescape x = x)
  /\ load_notified Plain.unescape (save_notified Plain.unescape S) = S.
Proof.
  assert (Hfix : forall x, x ∈ ({["https://a.example/1"]} : gset string) ->
                   normalize_url Plain.unescape x = x).
  { intros x Hx. apply elem_of_singleton in Hx. subst x. reflexivity. }
  split; [exact Hfix|].
  exact (proj1 (proj2 (load_save_round_trip Plain.unescape {["https://a.example/1"]})
                  Hfix)).
Defined.

Lemma normalize_row_variants_witness :
  let cell := Markup.anchor "https://acme.example/apply" "Apply" in
  let r := [("Company", " Acme "); ("Application", cell)] in
  Dict.get (normalize_row Plain.get_text r) "Company" = Some "Acme"
  /\ Dict.get (normalize_row Plain.get_text r) "Company_raw" = Some " Acme "
  /\ Dict.get (normalize_row Plain.get_text r) "Application_raw" = Some cell.
Proof.
  cbv zeta.
  assert (Hnd : NoDup (Dict.keys
            [("Company", " Acme ");
             ("Application", Markup.anchor "https://acme.example/apply" "Apply")])).
  { apply (bool_decide_unpack _). vm_compute. exact I. }
  assert (Hraw : forall k k',
            k ∈ Dict.keys [("Company", " Acme ");
                           ("Application",
                            Markup.anchor "https://acme.example/apply" "Apply")] ->
            k' ∈ Dict.keys [("Company", " Acme ");
                            ("Application",
                             Markup.anchor "https://acme.example/apply" "Apply")] ->
            k' <> k +:+ "_raw").
  { simpl. intros k k' Hk Hk'.
    repeat (apply elem_of_cons in Hk as [->|Hk]);
      repeat (apply elem_of_cons in Hk' as [->|Hk']);
      try (by apply elem_of_nil in Hk); try (by apply elem_of_nil in Hk');
      discriminate. }
  pose proof (normalize_row_variants Plain.get_text _ Hnd Hraw) as Hboth.
  destruct (Hboth "Company" " Acme ") as [Htext Hkept]; [by left|].
  destruct (Hboth "Application" (Markup.anchor "https://acme.example/apply" "Apply"))
    as [_ Hmarkup]; [right; by left|].
  split; [exact Htext|]. split; [exact Hkept|exact Hmarkup].
Defined.

Lemma posting_key_resolution_witness :
  let row := normalize_row Plain.get_text
    [("Company", "Acme"); ("Role", "SWE Intern"); ("Location", "Toronto, Canada");
     ("Application", ""); ("Age", "0d")] in
  let cols := choose_columns (Dict.keys row) in
  let c := {| last_valid_link := None; previous_company := Some "Acme" |} in
  post_key (resolve Plain.unescape Plain.get_text Plain.anchor_hrefs cols c row)
  = "Acme|SWE Intern|Toronto, Canada".
Proof.
  cbv zeta.
  destruct (proj1 (proj2 (posting_key_resolution
              Plain.unescape Plain.get_text Plain.anchor_hrefs
              (choose_columns (Dict.keys (normalize_row Plain.get_text
                 [("Company", "Acme"); ("Role", "SWE Intern");
                  ("Location", "Toronto, Canada"); ("Application", "");
                  ("Age", "0d")])))
              {| last_valid_link := None; previous_company := Some "Acme" |}
              (normalize_row Plain.get_text
                 [("Company", "Acme"); ("Role", "SWE Intern");
                  ("Location", "Toronto, Canada"); ("Application", "");
                  ("Age", "0d")])))
              eq_refl eq_refl) as [Hkey _].
  rewrite Hkey. reflexivity.
Defined.


Lemma run_sends_each_key_once_witness :
  let rows := parse_markdown_table
    ["| Company | Location | Application | Age |"; "| --- | --- | --- | --- |";
     "| Acme | Toronto, Canada | https://acme.example/jobs/1 | 0d |";
     "| Acme | Ottawa, Canada | https://acme.example/jobs/1 | 0d |"] in
  let st := notify_rows Plain.unescape Plain.get_text Plain.anchor_hrefs
              Plain.accept_all StoreAbsent rows in
  newly_notified st = ["https://acme.example/jobs/1"]
  /\ ("https://acme.example/jobs/1" ∉ load_notified Plain.unescape StoreAbsent)
  /\ attempts st = 1%nat.
Proof.
  cbv zeta.
  split; [reflexivity|]. split; [|reflexivity].
  apply (proj1 (proj2 (run_sends_each_key_once
           Plain.unescape Plain.get_text Plain.anchor_hrefs
           Plain.accept_all StoreAbsent
           (parse_markdown_table
              ["| Company | Location | Application | Age |";
               "| --- | --- | --- | --- |";
               "| Acme | Toronto, Canada | https://acme.example/jobs/1 | 0d |";
               "| Acme | Ottawa, Canada | https://acme.example/jobs/1 | 0d |"])))
           "https://acme.example/jobs/1").
  apply (bool_decide_unpack _). vm_compute. exact I.
Defined.

Lemma store_written_only_after_send_witness :
  let rows := parse_markdown_table
    ["| Company | Location | Application | Age |"; "| --- | --- | --- | --- |";
     "| Acme | Toronto, Canada | https://acme.example/jobs/1 | 0d |"] in
  let file := StoreList [JStr "https://old.example/9"] in
  store (notify_rows Plain.unescape Plain.get_text Plain.anchor_hrefs
           Plain.refuse_all file rows) = file
  /\ store (notify_rows Plain.unescape Plain.get_text Plain.anchor_hrefs
              Plain.accept_all file rows)
     = StoreList [JStr "https://acme.example/jobs/1"; JStr "https://old.example/9"].
Proof.
  cbv zeta.
  split.
  - apply (proj1 (store_written_only_after_send
             Plain.unescape Plain.get_text Plain.anchor_hrefs
             Plain.refuse_all (StoreList [JStr "https://old.example/9"])
             (parse_markdown_table
                ["| Company | Location | Application | Age |";
                 "| --- | --- | --- | --- |";
                 "| Acme | Toronto, Canada | https://acme.example/jobs/1 | 0d |"]))).
    reflexivity.
  - destruct (proj2 (store_written_only_after_send
             Plain.unescape Plain.get_text Plain.anchor_hrefs
             Plain.accept_all (StoreList [JStr "https://old.example/9"])
             (parse_markdown_table
                ["| Company | Location | Application | Age |";
                 "| --- | --- | --- | --- |";
                 "| Acme | Toronto, Canada | https://acme.example/jobs/1 | 0d |"])))
      as [Hstore _]; [discriminate|].
    rewrite Hstore. reflexivity.
Defined.

Lemma main_outcomes_witness :
  let run := main Plain.unescape Plain.get_text Plain.anchor_hrefs Plain.find_table in
  run None (Some "## Software Engineering") StoreAbsent Plain.accept_all = Exit 2
  /\ run (Some "hook") None StoreAbsent Plain.accept_all = Raised
  /\ run (Some "hook") (Some "## Data Science") StoreAbsent Plain.accept_all = Exit 1
  /\ run (Some "hook")
       (Some (Plain.document ["| Company | Location | Age |"]))
       StoreAbsent Plain.accept_all = Exit 0.
Proof.
  cbv zeta.
  pose proof (main_outcomes Plain.unescape Plain.get_text Plain.anchor_hrefs
                Plain.find_table) as Hout.
  split; [exact (proj1 (Hout None (Some "## Software Engineering") StoreAbsent
                          Plain.accept_all) eq_refl)|].
  split; [exact (proj1 (proj2 (Hout (Some "hook") None StoreAbsent Plain.accept_all))
                   eq_refl eq_refl)|].
  split.
  - apply (proj1 (proj1 (proj2 (proj2 (Hout (Some "hook") (Some "## Data Science")
                                         StoreAbsent Plain.accept_all)))
                    "## Data Science" eq_refl eq_refl)).
    vm_compute. repeat constructor.
  - destruct (proj1 (proj2 (proj2 (Hout (Some "hook")
                (Some (Plain.document ["| Company | Location | Age |"]))
                StoreAbsent Plain.accept_all)))
                (Plain.document ["| Company | Location | Age |"]) eq_refl eq_refl)
      as [_ Hsection].
    destruct (Hsection (Plain.document ["| Company | Location | Age |"]) eq_refl)
      as (_ & _ & Hpipe).
    exact (Hpipe ["| Company | Location | Age |"] eq_refl eq_refl).
Defined.

Lemma main_second_run_silent_witness :
  let md := Plain.document
    ["| Company | Location | Application | Age |"; "| --- | --- | --- | --- |";
     "| Acme | Toronto, Canada | https://acme.example/jobs/1 | 0d |"] in
  let run file := main Plain.unescape Plain.get_text Plain.anchor_hrefs Plain.find_table
                    (Some "hook") (Some md) file Plain.accept_all in
  length (dispatched (run StoreAbsent)) = 1%nat
  /\ dispatched (run (StoreList [JStr "https://acme.example/jobs/1"])) = [].
Proof.
  cbv zeta.
  split; [reflexivity|].
  set (md := Plain.document
    ["| Company | Location | Application | Age |"; "| --- | --- | --- | --- |";
     "| Acme | Toronto, Canada | https://acme.example/jobs/1 | 0d |"]).
  set (st1 := notify_rows Plain.unescape Plain.get_text Plain.anchor_hrefs
                Plain.accept_all StoreAbsent
                (parse_markdown_table
                   ["| Company | Location | Application | Age |";
                    "| --- | --- | --- | --- |";
                    "| Acme | Toronto, Canada | https://acme.example/jobs/1 | 0d |"])).
  assert (Hrun : main Plain.unescape Plain.get_text Plain.anchor_hrefs Plain.find_table
                   (Some "hook") (Some md) StoreAbsent Plain.accept_all
                 = Completed st1) by reflexivity.
  assert (Hstore : store st1 = StoreList [JStr "https://acme.example/jobs/1"])
    by reflexivity.
  rewrite <- Hstore.
  apply (main_second_run_silent Plain.unescape Plain.get_text Plain.anchor_hrefs
           Plain.find_table (Some "hook") md StoreAbsent
           Plain.accept_all Plain.accept_all st1 Hrun).
  - reflexivity.
  - intros k Hk. apply elem_of_elements in Hk.
    assert (Hel : elements (notified st1) = ["https://acme.example/jobs/1"])
      by (vm_compute; reflexivity).
    rewrite Hel in Hk. apply list_elem_of_singleton in Hk. subst k. reflexivity.
Defined.

Lemma continuation_after_qualifying_main_row_witness :
  let rows := build_normalized_rows Plain.get_text (parse_markdown_table
    ["| Company | Location | Application | Age |"; "| --- | --- | --- | --- |";
     "| Acme | Toronto, Canada | https://acme.example/jobs/1 | 0d |";
     "| ↳ | Ottawa, Canada | | 0d |"]) in
  let cols := choose_columns (Dict.keys (nth 0 rows [])) in
  let c0 := {| last_valid_link := None; previous_company := None |} in
  let c1 := update_context Plain.unescape Plain.get_text Plain.anchor_hrefs cols c0
              (nth 0 rows []) in
  post_company (resolve Plain.unescape Plain.get_text Plain.anchor_hrefs cols
                  (update_context Plain.unescape Plain.get_text Plain.anchor_hrefs
                     cols c1 (nth 1 rows []))
                  (nth 1 rows [])) = "Acme".
Proof.
  cbv zeta.
  set (rows := build_normalized_rows Plain.get_text (parse_markdown_table
    ["| Company | Location | Application | Age |"; "| --- | --- | --- | --- |";
     "| Acme | Toronto, Canada | https://acme.example/jobs/1 | 0d |";
     "| ↳ | Ottawa, Canada | | 0d |"])).
  destruct (continuation_after_qualifying_main_row
              Plain.unescape Plain.get_text Plain.anchor_hrefs
              (choose_columns (Dict.keys (nth 0 rows [])))
              {| last_valid_link := None; previous_company := None |}
              (nth 0 rows []) (nth 1 rows []) "https://acme.example/jobs/1"
              eq_refl eq_refl eq_refl eq_refl eq_refl)
    as (_ & Hcompany & _).
  rewrite Hcompany. reflexivity.
Defined.



Lemma already_notified_row_is_silent_witness :
  let row := normalize_row Plain.get_text
    [("Company", "Acme"); ("Location", "Toronto, Canada");
     ("Application", "https://acme.example/jobs/1"); ("Age", "0d")] in
  let cols := choose_columns (Dict.keys row) in
  let st := initial_state Plain.unescape (StoreList [JStr "https://acme.example/jobs/1"]) in
  trace (process_row Plain.unescape Plain.get_text Plain.anchor_hrefs cols
           Plain.accept_all st row) = []
  /\ previous_company
       (ctx (process_row Plain.unescape Plain.get_text Plain.anchor_hrefs cols
               Plain.accept_all st row)) = Some "Acme".
Proof.
  cbv zeta.
  destruct (already_notified_row_is_silent
              Plain.unescape Plain.get_text Plain.anchor_hrefs
              (choose_columns (Dict.keys (normalize_row Plain.get_text
                 [("Company", "Acme"); ("Location", "Toronto, Canada");
                  ("Application", "https://acme.example/jobs/1"); ("Age", "0d")])))
              Plain.accept_all
              (initial_state Plain.unescape
                 (StoreList [JStr "https://acme.example/jobs/1"]))
              (normalize_row Plain.get_text
                 [("Company", "Acme"); ("Location", "Toronto, Canada");
                  ("Application", "https://acme.example/jobs/1"); ("Age", "0d")])
              eq_refl)
    as (Htrace & _ & _ & _ & _ & Hctx).
  - apply (bool_decide_unpack _). vm_compute. exact I.
  - split; [exact Htrace|]. rewrite Hctx. reflexivity.
Defined.
